(** * Sugar-AI activity: the request life cycle of [activity.py]

    A shallow embedding of [SugarAIActivity] (src/activity.py): the Python
    values the activity handles, the retrying worker [_make_api_request], the
    click handler [_on_ask_clicked] with the GLib idle queue, and the session
    file written by [write_file] and read back by [read_file]. *)

From Stdlib Require Import List NArith ZArith String Ascii Bool Lia Arith.
From Stdlib Require Import DecimalString SpecFloat.
Import ListNotations.

Set Implicit Arguments.
Set Warnings "-register-all".

(** ** Python strings

    A Python [str] is a sequence of Unicode code points.  Indexing, slicing,
    [split], [startswith] and [strip] all work on code points, so the model is
    a list of them. *)

Module Py.

Definition str := list N.

(** A literal of the source (all of them are ASCII). *)
Definition lit (s : string) : str :=
  map N_of_ascii (list_ascii_of_string s).

Definition str_of_nat (n : nat) : str :=
  lit (NilZero.string_of_uint (Nat.to_uint n)).

(** [str(i)] for a Python int. *)
Definition str_of_Z (z : Z) : str :=
  lit (NilZero.string_of_int (Z.to_int z)).

(** Truth value of a string: [if s:]. *)
Definition str_bool (s : str) : bool :=
  match s with [] => false | _ :: _ => true end.

Fixpoint str_eqb (a b : str) : bool :=
  match a, b with
  | [], [] => true
  | x :: a', y :: b' => N.eqb x y && str_eqb a' b'
  | _, _ => false
  end.

(** [s.startswith(prefix)] *)
Fixpoint startswith (prefix s : str) : bool :=
  match prefix, s with
  | [], _ => true
  | p :: prefix', c :: s' => N.eqb p c && startswith prefix' s'
  | _ :: _, [] => false
  end.

(** [s[n:]] for a non-negative [n]. *)
Definition slice_from (n : nat) (s : str) : str := skipn n s.

(** [s.split(sep)] for a separator of one code point: the pieces between the
    separators, never an empty list. *)
Fixpoint split (sep : N) (s : str) : list str :=
  match s with
  | [] => [[]]
  | c :: s' =>
      if N.eqb c sep then [] :: split sep s'
      else match split sep s' with
           | piece :: pieces => (c :: piece) :: pieces
           | [] => [[c]]
           end
  end.

Definition newline : N := 10%N.

(** The code points [str.strip()] removes: CPython's
    [_PyUnicode_IsWhitespace]. *)
Definition isspace (c : N) : bool :=
  ((9 <=? c) && (c <=? 13)
   || (28 <=? c) && (c <=? 32)
   || (c =? 133) || (c =? 160) || (c =? 5760)
   || (8192 <=? c) && (c <=? 8202)
   || (c =? 8232) || (c =? 8233) || (c =? 8239) || (c =? 8287)
   || (c =? 12288))%N.

Fixpoint lstrip (s : str) : str :=
  match s with
  | c :: s' => if isspace c then lstrip s' else s
  | [] => []
  end.

Definition rstrip (s : str) : str := rev (lstrip (rev s)).

(** [s.strip()] *)
Definition strip (s : str) : str := rstrip (lstrip s).

(** *** UTF-8 and [urllib.parse.quote] *)

(** [s.encode('utf-8')] of one code point; a lone surrogate has no encoding
    (CPython raises [UnicodeEncodeError]). *)
Definition utf8_of_codepoint (c : N) : option (list N) :=
  (if c <? 128 then Some [c]
   else if c <? 2048 then Some [192 + c / 64; 128 + c mod 64]
   else if c <? 65536 then
     if (55296 <=? c) && (c <? 57344) then None
     else Some [224 + c / 4096; 128 + (c / 64) mod 64; 128 + c mod 64]
   else if c <? 1114112 then
     Some [240 + c / 262144; 128 + (c / 4096) mod 64;
           128 + (c / 64) mod 64; 128 + c mod 64]
   else None)%N.

Fixpoint utf8_encode (s : str) : option (list N) :=
  match s with
  | [] => Some []
  | c :: s' =>
      match utf8_of_codepoint c, utf8_encode s' with
      | Some bs, Some rest => Some (bs ++ rest)
      | _, _ => None
      end
  end.

(** Bytes [quote] leaves alone: letters, digits, [_.-~] and the default
    [safe='/']. *)
Definition quote_safe (b : N) : bool :=
  ((65 <=? b) && (b <=? 90) || (97 <=? b) && (b <=? 122)
   || (48 <=? b) && (b <=? 57)
   || (b =? 95) || (b =? 46) || (b =? 45) || (b =? 126) || (b =? 47))%N.

Definition hex_digit (d : N) : N :=
  (if d <? 10 then 48 + d else 55 + d)%N.

Definition percent : N := 37%N.

Definition quote_byte (b : N) : str :=
  if quote_safe b then [b]
  else [percent; hex_digit (b / 16); hex_digit (b mod 16)]%N.

Definition quote_from_bytes (bs : list N) : str := flat_map quote_byte bs.

(** The reading a server applies to a percent-encoded value. *)
Definition hex_value (c : N) : option N :=
  (if (48 <=? c) && (c <=? 57) then Some (c - 48)
   else if (65 <=? c) && (c <=? 70) then Some (c - 55)
   else if (97 <=? c) && (c <=? 102) then Some (c - 87)
   else None)%N.

Fixpoint unquote_to_bytes (s : str) : list N :=
  match s with
  | [] => []
  | c :: s' =>
      if N.eqb c percent then
        match s' with
        | h :: l :: s'' =>
            match hex_value h, hex_value l with
            | Some hv, Some lv => (16 * hv + lv)%N :: unquote_to_bytes s''
            | _, _ => c :: unquote_to_bytes s'
            end
        | _ => c :: unquote_to_bytes s'
        end
      else c :: unquote_to_bytes s'
  end.

(** *** Values decoded from JSON

    What [response.json()] returns: [None], booleans, ints, floats, strings,
    lists and dicts with string keys.  A dict is the list of its items, each
    key once. *)

Inductive value : Type :=
| PyNone
| PyBool (b : bool)
| PyInt (z : Z)
| PyFloat (f : spec_float)
| PyStr (s : str)
| PyList (items : list value)
| PyDict (items : list (str * value)).

(** [type(v).__name__] *)
Definition type_name (v : value) : str :=
  match v with
  | PyNone => lit "NoneType"
  | PyBool _ => lit "bool"
  | PyInt _ => lit "int"
  | PyFloat _ => lit "float"
  | PyStr _ => lit "str"
  | PyList _ => lit "list"
  | PyDict _ => lit "dict"
  end.

(** Truth value: [if v:]. *)
Definition truthy (v : value) : bool :=
  match v with
  | PyNone => false
  | PyBool b => b
  | PyInt z => negb (Z.eqb z 0)
  | PyFloat (S754_zero _) => false
  | PyFloat _ => true
  | PyStr s => str_bool s
  | PyList [] => false
  | PyList (_ :: _) => true
  | PyDict [] => false
  | PyDict (_ :: _) => true
  end.

Fixpoint lookup (key : str) (items : list (str * value)) : option value :=
  match items with
  | [] => None
  | (k, v) :: rest => if str_eqb k key then Some v else lookup key rest
  end.

(** *** Exceptions

    The classes the handlers of [_make_api_request] tell apart, with the
    [requests] hierarchy: [ReadTimeout] and [ConnectTimeout] are [Timeout]s,
    [ConnectTimeout] is a [ConnectionError] as well, and
    [OtherBaseException] is a [BaseException] outside [Exception]
    ([SystemExit] and the like). *)

Inductive exn_class : Type :=
| Timeout
| ReadTimeout
| ConnectTimeout
| ConnectionError
| JSONDecodeError
| AttributeError
| UnicodeEncodeError
| IndexError
| OtherException
| OtherBaseException.

Record exn : Type := mk_exn { exn_type : exn_class; exn_str : str }.

Definition isinstance_Timeout (e : exn) : bool :=
  match exn_type e with
  | Timeout | ReadTimeout | ConnectTimeout => true
  | _ => false
  end.

Definition isinstance_ConnectionError (e : exn) : bool :=
  match exn_type e with
  | ConnectTimeout | ConnectionError => true
  | _ => false
  end.

Definition isinstance_Exception (e : exn) : bool :=
  match exn_type e with
  | OtherBaseException => false
  | _ => true
  end.

(** [v.get(key, default)]: only a dict has the method. *)
Definition get (v : value) (key : str) (default : value) : exn + value :=
  match v with
  | PyDict items =>
      inr (match lookup key items with Some x => x | None => default end)
  | _ =>
      inl (mk_exn AttributeError
             (lit "'" ++ type_name v ++ lit "' object has no attribute 'get'"))
  end.

(** The [UnicodeEncodeError] of [s.encode('utf-8')]: CPython reports the
    first run of surrogates. *)
Definition is_surrogate (c : N) : bool := ((55296 <=? c) && (c <? 57344))%N.

Fixpoint surrogate_run (s : str) : nat :=
  match s with
  | c :: s' => if is_surrogate c then S (surrogate_run s') else O
  | [] => O
  end.

Fixpoint first_unencodable (pos : nat) (s : str) : option (nat * N * nat) :=
  match s with
  | [] => None
  | c :: s' =>
      match utf8_of_codepoint c with
      | None => Some (pos, c, surrogate_run s)
      | Some _ => first_unencodable (S pos) s'
      end
  end.

Definition lower_hex_digit (d : N) : N :=
  (if d <? 10 then 48 + d else 87 + d)%N.

Definition unicode_encode_error (s : str) : exn :=
  mk_exn UnicodeEncodeError
    (match first_unencodable 0 s with
     | Some (pos, c, run) =>
         if Nat.leb run 1 then
           lit "'utf-8' codec can't encode character '\u"
           ++ [lower_hex_digit (c / 4096); lower_hex_digit ((c / 256) mod 16);
               lower_hex_digit ((c / 16) mod 16); lower_hex_digit (c mod 16)]%N
           ++ lit "' in position " ++ str_of_nat pos
           ++ lit ": surrogates not allowed"
         else
           lit "'utf-8' codec can't encode characters in position "
           ++ str_of_nat pos ++ lit "-" ++ str_of_nat (pos + run - 1)
           ++ lit ": surrogates not allowed"
     | None => []
     end).

(** [urllib.parse.quote(s)]: percent-encodes the UTF-8 bytes of [s]. *)
Definition quote (s : str) : exn + str :=
  match utf8_encode s with
  | Some bs => inr (quote_from_bytes bs)
  | None => inl (unicode_encode_error s)
  end.

End Py.

Import Py.

(** ** The worker and what it can do

    [_make_api_request] runs on a thread of its own.  It talks to the rest of
    the world through five operations: queueing a callback for the GTK main
    loop ([GLib.idle_add]), [time.sleep], reading the RAG toggle, reading
    [self._api_key], and [requests.post]. *)

(** A callback handed to [GLib.idle_add], with its argument. *)
Inductive callback : Type :=
| cb_add_system_message (message : str)
| cb_add_ai_message (message : value)
| cb_add_error_message (message : str)
| cb_set_input_sensitive (sensitive : bool).

(** The arguments of [requests.post(url, params=..., headers=..., timeout=...)]. *)
Record request : Type := mk_request {
  url : str;
  params : list (str * str);
  headers : list (str * str);
  timeout : Z
}.

(** What the worker reads of a [requests.Response]: [status_code], [text] and
    [json()], which returns the decoded body or raises
    [requests.exceptions.JSONDecodeError] with a message. *)
Record response : Type := mk_response {
  status_code : Z;
  text : str;
  json : str + value
}.

(** A program of the worker: the operation it performs next and how it goes
    on with what the operation returns. *)
Inductive prog (A : Type) : Type :=
| Ret (a : A)
| IdleAdd (cb : callback) (k : prog A)
| Sleep (seconds : nat) (k : prog A)
| RagGetActive (k : bool -> prog A)
| ReadApiKey (k : str -> prog A)
| RequestsPost (rq : request) (k : exn + response -> prog A).

Arguments Ret {A} a.

Fixpoint bind {A B : Type} (p : prog A) (f : A -> prog B) : prog B :=
  match p with
  | Ret a => f a
  | IdleAdd cb k => IdleAdd cb (bind k f)
  | Sleep n k => Sleep n (bind k f)
  | RagGetActive k => RagGetActive (fun b => bind (k b) f)
  | ReadApiKey k => ReadApiKey (fun key => bind (k key) f)
  | RequestsPost rq k => RequestsPost rq (fun r => bind (k r) f)
  end.

Definition idle_add (cb : callback) : prog unit := IdleAdd cb (Ret tt).
Definition sleep (seconds : nat) : prog unit := Sleep seconds (Ret tt).
Definition rag_get_active : prog bool := RagGetActive (fun b => Ret b).
Definition read_api_key : prog str := ReadApiKey (fun key => Ret key).
Definition requests_post (rq : request) : prog (exn + response) :=
  RequestsPost rq (fun r => Ret r).

(** How a block of Python statements ends. *)
Inductive completion : Type :=
| Normal
| Continue
| Return
| Raise (e : exn).

Declare Scope prog_scope.
Delimit Scope prog_scope with prog.
Notation "x <- p ;; q" := (bind p (fun x => q))
  (at level 61, p at next level, right associativity) : prog_scope.
Notation "p ;; q" := (bind p (fun _ => q))
  (at level 61, right associativity) : prog_scope.
(** An expression that may raise: the exception ends the block. *)
Notation "x <-! e ;; q" :=
  (match e with inl ex => Ret (Raise ex) | inr x => q end)
  (at level 61, e at next level, right associativity) : prog_scope.
(** Two statements in a row: the second runs when the first ends normally. *)
Notation "p ;;; q" :=
  (bind p (fun c => match c with Normal => q | _ => Ret c end))
  (at level 61, right associativity) : prog_scope.
Open Scope prog_scope.

Definition _api_base_url : str := lit "https://ai.sugarlabs.org".
Definition max_retries : nat := 3.
Definition retry_delays : list nat := [60; 120; 180]%nat.

(** [response.json()] *)
Definition response_json (r : response) : exn + value :=
  match json r with
  | inl msg => inl (mk_exn JSONDecodeError msg)
  | inr v => inr v
  end.

(** ** One run of a program against the world

    The world answers the reads and the request of each attempt: what the RAG
    toggle and [self._api_key] hold when attempt [i] looks at them (the user
    may change both while the worker waits), and how [requests.post] ends. *)

Record attempt_env : Type := mk_env {
  env_rag_active : bool;
  env_api_key : str;
  env_post : exn + response
}.

Definition world := nat -> attempt_env.

(** What an observer of the worker thread sees. *)
Inductive event : Type :=
| EvIdleAdd (cb : callback)
| EvSleep (seconds : nat)
| EvPost (rq : request).

(** [run w i p]: the events of [p] and its result, [i] requests having been
    sent before. *)
Fixpoint run {A : Type} (w : world) (i : nat) (p : prog A) : list event * A :=
  match p with
  | Ret a => ([], a)
  | IdleAdd cb k => let (t, a) := run w i k in (EvIdleAdd cb :: t, a)
  | Sleep n k => let (t, a) := run w i k in (EvSleep n :: t, a)
  | RagGetActive k => run w i (k (env_rag_active (w i)))
  | ReadApiKey k => run w i (k (env_api_key (w i)))
  | RequestsPost rq k =>
      let (t, a) := run w (S i) (k (env_post (w i))) in (EvPost rq :: t, a)
  end.

Definition trace {A : Type} (w : world) (p : prog A) : list event :=
  fst (run w 0 p).

(** The requests of a trace, in order. *)
Fixpoint requests_of (t : list event) : list request :=
  match t with
  | [] => []
  | EvPost rq :: t' => rq :: requests_of t'
  | _ :: t' => requests_of t'
  end.

(** The callbacks queued by a trace, in order. *)
Fixpoint callbacks_of (t : list event) : list callback :=
  match t with
  | [] => []
  | EvIdleAdd cb :: t' => cb :: callbacks_of t'
  | _ :: t' => callbacks_of t'
  end.

(** Requests and sleeps only: when the worker is on the network and when it
    waits. *)
Inductive io : Type :=
| IoPost
| IoSleep (seconds : nat).

Fixpoint io_of (t : list event) : list io :=
  match t with
  | [] => []
  | EvPost _ :: t' => IoPost :: io_of t'
  | EvSleep n :: t' => IoSleep n :: io_of t'
  | EvIdleAdd _ :: t' => io_of t'
  end.

Section Worker.

(** [repr] of a float, a list or a dict is CPython's business; the worker
    only pastes it into a message. *)
Variable repr : value -> str.

(** [str(v)], as an f-string applies it. *)
Definition py_str (v : value) : str :=
  match v with
  | PyNone => lit "None"
  | PyBool true => lit "True"
  | PyBool false => lit "False"
  | PyInt z => str_of_Z z
  | PyStr s => s
  | _ => repr v
  end.

(** Lines 371-379: the wait before a retry. *)
Definition announce_retry (attempt : nat) : prog completion :=
  if (0 <? attempt)%nat then
    match nth_error retry_delays (attempt - 1) with
    | None => Ret (Raise (mk_exn IndexError (lit "list index out of range")))
    | Some delay =>
        idle_add (cb_add_system_message
          (lit "Attempt " ++ str_of_nat (attempt + 1) ++ lit "/"
           ++ str_of_nat max_retries ++ lit " - retrying in "
           ++ str_of_nat delay ++ lit " seconds...")) ;;
        sleep delay ;;
        idle_add (cb_add_system_message (lit "Retrying request to Sugar-AI...")) ;;
        Ret Normal
    end
  else Ret Normal.

(** Lines 393-408: a 200 response. *)
Definition handle_success (r : response) : prog completion :=
  result <-! response_json r ;;
  answer <-! get result (lit "answer") (PyStr (lit "No answer received.")) ;;
  quota <-! get result (lit "quota") (PyDict []) ;;
  (if truthy quota then
     remaining <-! get quota (lit "remaining") (PyStr (lit "Unknown")) ;;
     total <-! get quota (lit "total") (PyStr (lit "Unknown")) ;;
     idle_add (cb_add_system_message
       (lit "Quota: " ++ py_str remaining ++ lit "/" ++ py_str total)) ;;
     Ret Normal
   else Ret Normal) ;;;
  idle_add (cb_add_ai_message answer) ;;
  Ret Return.

(** Lines 393-446: the branch on the status code. *)
Definition handle_response (attempt : nat) (r : response) : prog completion :=
  if (status_code r =? 200)%Z then handle_success r
  else if (status_code r =? 401)%Z then
    idle_add (cb_add_error_message
      (lit "Invalid API key. Please check your configuration.")) ;;
    Ret Return
  else if (status_code r =? 429)%Z then
    idle_add (cb_add_error_message
      (lit "Rate limit exceeded. Please try again later.")) ;;
    Ret Return
  else if (status_code r =? 504)%Z then
    (if (attempt =? max_retries - 1)%nat then
       idle_add (cb_add_error_message
         (lit "Server timeout (504) after " ++ str_of_nat max_retries
          ++ lit " attempts. The Sugar-AI service is experiencing high load. Please try again later."))
     else
       idle_add (cb_add_system_message
         (lit "Server timeout (504) on attempt " ++ str_of_nat (attempt + 1)
          ++ lit ". Will retry..."))) ;;
    Ret Continue
  else if (status_code r =? 503)%Z then
    idle_add (cb_add_error_message
      (lit "Service unavailable (503). The Sugar-AI service may be down for maintenance. Please try again later.")) ;;
    Ret Return
  else
    idle_add (cb_add_error_message
      (lit "API error " ++ str_of_Z (status_code r) ++ lit ": " ++ text r)) ;;
    Ret Return.

(** Lines 371-446: the body of the inner [try]. *)
Definition attempt_body (question : str) (attempt : nat) : prog completion :=
  announce_retry attempt ;;;
  active <- rag_get_active ;;
  let endpoint := if active then lit "/ask" else lit "/ask-llm" in
  let url := _api_base_url ++ endpoint in
  quoted <-! quote question ;;
  let params := [(lit "question", quoted)] in
  key <- read_api_key ;;
  let headers := [(lit "X-API-Key", key)] in
  posted <- requests_post (mk_request url params headers 300) ;;
  r <-! posted ;;
  handle_response attempt r.

(** Lines 448-470: the [except] clauses, tried in order. *)
Definition handle_exception (attempt : nat) (e : exn) : prog completion :=
  if isinstance_Timeout e then
    (if (attempt =? max_retries - 1)%nat then
       idle_add (cb_add_error_message
         (lit "Request timed out after 5 minutes on " ++ str_of_nat max_retries
          ++ lit " attempts. The Sugar-AI service may be experiencing high load. Please try again later."))
     else
       idle_add (cb_add_system_message
         (lit "Request timed out on attempt " ++ str_of_nat (attempt + 1)
          ++ lit ". Will retry..."))) ;;
    Ret Continue
  else if isinstance_ConnectionError e then
    idle_add (cb_add_error_message
      (lit "Connection error. Please check your internet connection.")) ;;
    Ret Return
  else if isinstance_Exception e then
    idle_add (cb_add_error_message (lit "Unexpected error: " ++ exn_str e)) ;;
    Ret Return
  else Ret (Raise e).

(** One turn of the loop: the inner [try] with its handlers. *)
Definition attempt_iteration (question : str) (attempt : nat) : prog completion :=
  c <- attempt_body question attempt ;;
  match c with
  | Raise e => handle_exception attempt e
  | _ => Ret c
  end.

(** [for attempt in ...: body]: [continue] and a normal end go on to the next
    value, [return] and an exception leave the loop. *)
Fixpoint for_each (attempts : list nat) (body : nat -> prog completion)
  : prog completion :=
  match attempts with
  | [] => Ret Normal
  | attempt :: rest =>
      c <- body attempt ;;
      match c with
      | Normal | Continue => for_each rest body
      | Return | Raise _ => Ret c
      end
  end.

(** [try: body finally: handler] *)
Definition try_finally (body : prog completion) (handler : prog unit)
  : prog completion :=
  c <- body ;; handler ;; Ret c.

Definition _make_api_request (question : str) : prog completion :=
  try_finally
    (for_each (seq 0 max_retries) (attempt_iteration question))
    (idle_add (cb_set_input_sensitive true)).

(** ** The activity

    The fields of [SugarAIActivity] and of its widgets that the handlers read
    or write.  The chat buffer is its text; the tags only colour it. *)

Record entry : Type := mk_entry {
  entry_type : str;
  entry_message : str
}.

Record activity : Type := mk_activity {
  _api_key : str;
  _conversation_history : list entry;
  _is_requesting : bool;
  rag_button_active : bool;
  question_entry_text : str;
  question_entry_sensitive : bool;
  ask_button_sensitive : bool;
  ask_button_label : str;
  chat_buffer : str;
  alerts : list str
}.

Definition with_api_key (key : str) (a : activity) : activity :=
  mk_activity key (_conversation_history a) (_is_requesting a)
    (rag_button_active a) (question_entry_text a) (question_entry_sensitive a)
    (ask_button_sensitive a) (ask_button_label a) (chat_buffer a) (alerts a).

Definition with_conversation_history (h : list entry) (a : activity) : activity :=
  mk_activity (_api_key a) h (_is_requesting a)
    (rag_button_active a) (question_entry_text a) (question_entry_sensitive a)
    (ask_button_sensitive a) (ask_button_label a) (chat_buffer a) (alerts a).

Definition with_rag_button_active (b : bool) (a : activity) : activity :=
  mk_activity (_api_key a) (_conversation_history a) (_is_requesting a)
    b (question_entry_text a) (question_entry_sensitive a)
    (ask_button_sensitive a) (ask_button_label a) (chat_buffer a) (alerts a).

Definition with_question_entry_text (t : str) (a : activity) : activity :=
  mk_activity (_api_key a) (_conversation_history a) (_is_requesting a)
    (rag_button_active a) t (question_entry_sensitive a)
    (ask_button_sensitive a) (ask_button_label a) (chat_buffer a) (alerts a).

Definition with_chat_buffer (t : str) (a : activity) : activity :=
  mk_activity (_api_key a) (_conversation_history a) (_is_requesting a)
    (rag_button_active a) (question_entry_text a) (question_entry_sensitive a)
    (ask_button_sensitive a) (ask_button_label a) t (alerts a).

Definition with_alerts (l : list str) (a : activity) : activity :=
  mk_activity (_api_key a) (_conversation_history a) (_is_requesting a)
    (rag_button_active a) (question_entry_text a) (question_entry_sensitive a)
    (ask_button_sensitive a) (ask_button_label a) (chat_buffer a) l.

(** [buffer.insert_with_tags_by_name(buffer.get_end_iter(), text, tag)] *)
Definition insert_at_end (t : str) (a : activity) : activity :=
  with_chat_buffer (chat_buffer a ++ t) a.

Definition blank_line : str := [newline; newline].

Definition _add_user_message (message : str) (a : activity) : activity :=
  insert_at_end (lit "You: " ++ message ++ blank_line) a.

Definition _add_ai_message (message : value) (a : activity) : activity :=
  insert_at_end (lit "Sugar-AI: " ++ py_str message ++ blank_line) a.

Definition _add_error_message (message : str) (a : activity) : activity :=
  insert_at_end (lit "Error: " ++ message ++ blank_line) a.

Definition _add_system_message (message : str) (a : activity) : activity :=
  insert_at_end (lit "[" ++ message ++ lit "]" ++ blank_line) a.

Definition _set_input_sensitive (sensitive : bool) (a : activity) : activity :=
  mk_activity (_api_key a) (_conversation_history a) (negb sensitive)
    (rag_button_active a) (question_entry_text a) sensitive sensitive
    (if sensitive then lit "Ask" else lit "Thinking...")
    (chat_buffer a) (alerts a).

Definition _show_error_alert (message : str) (a : activity) : activity :=
  with_alerts (alerts a ++ [message]) a.

Definition _on_clear_clicked (a : activity) : activity :=
  _add_system_message (lit "Conversation cleared.")
    (with_chat_buffer [] (with_conversation_history [] a)).

(** [APIKeyDialog._on_save_clicked], on the text of the dialog's entry. *)
Definition _on_save_clicked (key_text : str) (a : activity) : activity :=
  with_api_key (strip key_text) a.

(** [_on_ask_clicked]: the new state of the activity and, when a request is
    started, the target of the thread it starts. *)
Definition _on_ask_clicked (a : activity) : activity * option (prog completion) :=
  let question := strip (question_entry_text a) in
  if negb (str_bool question) then (a, None)
  else if negb (str_bool (_api_key a)) then
    (_show_error_alert (lit "Please configure your API key first.") a, None)
  else if _is_requesting a then (a, None)
  else
    let a1 := with_question_entry_text [] a in
    let a2 := _add_user_message question a1 in
    let a3 := _add_system_message
      (lit "Sugar-AI is thinking... This may take 2-5 minutes, please be patient.") a2 in
    let a4 := _set_input_sensitive false a3 in
    (a4, Some (_make_api_request question)).

(** The main loop runs a queued callback. *)
Definition run_callback (cb : callback) (a : activity) : activity :=
  match cb with
  | cb_add_system_message message => _add_system_message message a
  | cb_add_ai_message message => _add_ai_message message a
  | cb_add_error_message message => _add_error_message message a
  | cb_set_input_sensitive sensitive => _set_input_sensitive sensitive a
  end.

(** *** The session file *)

(** The document [json.dump] writes and [json.load] reads back:
    [{"api_key": ..., "conversation_history": [{"type": ..., "message": ...}]}]. *)
Record session : Type := mk_session {
  session_api_key : str;
  session_conversation_history : list entry
}.

(** The three variables of the parsing loop of [write_file]. *)
Record parse_state : Type := mk_parse_state {
  conversation : list entry;
  current_message : str;
  current_type : option str
}.

(** [if current_message and current_type: conversation.append(...)] *)
Definition flush (st : parse_state) : list entry :=
  match current_type st with
  | Some ty =>
      if str_bool (current_message st) && str_bool ty then
        conversation st ++ [mk_entry ty (strip (current_message st))]
      else conversation st
  | None => conversation st
  end.

(** One turn of [for line in lines]. *)
Definition parse_line (st : parse_state) (line : str) : parse_state :=
  if startswith (lit "You: ") line then
    mk_parse_state (flush st) (slice_from 5 line) (Some (lit "user"))
  else if startswith (lit "Sugar-AI: ") line then
    mk_parse_state (flush st) (slice_from 10 line) (Some (lit "ai"))
  else if str_bool (current_message st) then
    mk_parse_state (conversation st)
      (current_message st ++ [newline] ++ line) (current_type st)
  else st.

Definition parse_conversation (text : str) : list entry :=
  flush (fold_left parse_line (split newline text) (mk_parse_state [] [] None)).

Definition write_file (a : activity) : session :=
  mk_session (_api_key a) (parse_conversation (chat_buffer a)).

(** One turn of [for entry in self._conversation_history]. *)
Definition restore_entry (a : activity) (e : entry) : activity :=
  if str_eqb (entry_type e) (lit "user") then
    _add_user_message (entry_message e) a
  else if str_eqb (entry_type e) (lit "ai") then
    _add_ai_message (PyStr (entry_message e)) a
  else a.

Definition read_file (data : session) (a : activity) : activity :=
  let a1 := with_api_key (session_api_key data) a in
  let a2 := with_conversation_history (session_conversation_history data) a1 in
  let a3 := with_chat_buffer [] a2 in
  fold_left restore_entry (session_conversation_history data) a3.

(** ** The running activity: main loop and worker threads *)

Record system : Type := mk_system {
  ui : activity;
  idle_queue : list callback;
  threads : list (prog completion)
}.

Inductive thread_id : Type :=
| MainThread
| WorkerThread (n : nat).

(** What one step of a thread does. *)
Inductive action : Type :=
| ActEntryChanged (text : str)
| ActAskClicked
| ActRagToggled
| ActApiKeySaved (key_text : str)
| ActClearClicked
| ActReadFile (data : session)
| ActIdleDispatch (cb : callback)
| ActIdleAdd (cb : callback)
| ActSleep (seconds : nat)
| ActRagGetActive
| ActReadApiKey
| ActRequestsPost (rq : request) (result : exn + response)
| ActExit (c : completion).

Definition spawned (t : option (prog completion)) : list (prog completion) :=
  match t with Some p => [p] | None => [] end.

Inductive step : system -> thread_id -> action -> system -> Prop :=
| step_entry_changed a q ts text :
    step (mk_system a q ts) MainThread (ActEntryChanged text)
         (mk_system (with_question_entry_text text a) q ts)
| step_ask_clicked a q ts :
    step (mk_system a q ts) MainThread ActAskClicked
         (mk_system (fst (_on_ask_clicked a)) q
                    (ts ++ spawned (snd (_on_ask_clicked a))))
| step_rag_toggled a q ts :
    step (mk_system a q ts) MainThread ActRagToggled
         (mk_system (with_rag_button_active (negb (rag_button_active a)) a) q ts)
| step_api_key_saved a q ts key_text :
    step (mk_system a q ts) MainThread (ActApiKeySaved key_text)
         (mk_system (_on_save_clicked key_text a) q ts)
| step_clear_clicked a q ts :
    step (mk_system a q ts) MainThread ActClearClicked
         (mk_system (_on_clear_clicked a) q ts)
| step_read_file a q ts data :
    step (mk_system a q ts) MainThread (ActReadFile data)
         (mk_system (read_file data a) q ts)
| step_idle_dispatch a cb q ts :
    step (mk_system a (cb :: q) ts) MainThread (ActIdleDispatch cb)
         (mk_system (run_callback cb a) q ts)
| step_idle_add a q before after cb k :
    step (mk_system a q (before ++ IdleAdd cb k :: after))
         (WorkerThread (List.length before)) (ActIdleAdd cb)
         (mk_system a (q ++ [cb]) (before ++ k :: after))
| step_sleep a q before after n k :
    step (mk_system a q (before ++ Sleep n k :: after))
         (WorkerThread (List.length before)) (ActSleep n)
         (mk_system a q (before ++ k :: after))
| step_rag_get_active a q before after k :
    step (mk_system a q (before ++ RagGetActive k :: after))
         (WorkerThread (List.length before)) ActRagGetActive
         (mk_system a q (before ++ k (rag_button_active a) :: after))
| step_read_api_key a q before after k :
    step (mk_system a q (before ++ ReadApiKey k :: after))
         (WorkerThread (List.length before)) ActReadApiKey
         (mk_system a q (before ++ k (_api_key a) :: after))
| step_requests_post a q before after rq k result :
    step (mk_system a q (before ++ RequestsPost rq k :: after))
         (WorkerThread (List.length before)) (ActRequestsPost rq result)
         (mk_system a q (before ++ k result :: after))
| step_exit a q before after c :
    step (mk_system a q (before ++ Ret c :: after))
         (WorkerThread (List.length before)) (ActExit c)
         (mk_system a q (before ++ after)).

(** The activity after [__init__], [key] being the key [_load_api_key] found. *)
Definition initial_activity (key : str) : activity :=
  mk_activity key [] false true [] true true (lit "Ask") [] [].

Definition initial_system (key : str) : system :=
  mk_system (initial_activity key) [] [].

Inductive reachable : system -> Prop :=
| reachable_initial key : reachable (initial_system key)
| reachable_step s th act s' : reachable s -> step s th act s' -> reachable s'.

End Worker.

(** ** Vocabulary of the statements *)

(** The request of an attempt that finds the toggle and the key as in [e]. *)
Definition request_for (quoted : str) (e : attempt_env) : request :=
  mk_request
    (_api_base_url ++ (if env_rag_active e then lit "/ask" else lit "/ask-llm"))
    [(lit "question", quoted)]
    [(lit "X-API-Key", env_api_key e)]
    300.

(** The outcomes the worker retries: a [Timeout] raised by [requests.post]
    and a 504 response. *)
Definition transient (r : exn + response) : bool :=
  match r with
  | inl e => isinstance_Timeout e
  | inr resp => (status_code resp =? 504)%Z
  end.

Definition retry_notice (r : exn + response) (attempt_number : nat) : str :=
  match r with
  | inr _ => lit "Server timeout (504) on attempt "
  | inl _ => lit "Request timed out on attempt "
  end ++ str_of_nat attempt_number ++ lit ". Will retry...".

Definition exhausted_notice (r : exn + response) : str :=
  match r with
  | inr _ => lit "Server timeout (504) after 3 attempts. The Sugar-AI service is experiencing high load. Please try again later."
  | inl _ => lit "Request timed out after 5 minutes on 3 attempts. The Sugar-AI service may be experiencing high load. Please try again later."
  end.

(** What the worker does before the request of a retry. *)
Definition waiting_events (attempt : nat) : list event :=
  match attempt with
  | O => []
  | S n =>
      [EvIdleAdd (cb_add_system_message
         (lit "Attempt " ++ str_of_nat (attempt + 1) ++ lit "/3 - retrying in "
          ++ str_of_nat (nth n retry_delays O) ++ lit " seconds..."));
       EvSleep (nth n retry_delays O);
       EvIdleAdd (cb_add_system_message (lit "Retrying request to Sugar-AI..."))]
  end.

(** A callback that switches the input on or off. *)
Definition touches_input (cb : callback) : bool :=
  match cb with cb_set_input_sensitive _ => true | _ => false end.

Definition event_touches_input (e : event) : bool :=
  match e with EvIdleAdd cb => touches_input cb | _ => false end.

(** A program that never queues [_set_input_sensitive], whatever the world
    answers. *)
Inductive quiet {A : Type} : prog A -> Prop :=
| quiet_Ret a : quiet (Ret a)
| quiet_IdleAdd cb k :
    touches_input cb = false -> quiet k -> quiet (IdleAdd cb k)
| quiet_Sleep n k : quiet k -> quiet (Sleep n k)
| quiet_RagGetActive k : (forall b, quiet (k b)) -> quiet (RagGetActive k)
| quiet_ReadApiKey k : (forall key, quiet (k key)) -> quiet (ReadApiKey k)
| quiet_RequestsPost rq k :
    (forall r, quiet (k r)) -> quiet (RequestsPost rq k).

(** A program whose last act, whatever the world answers, is to queue
    [_set_input_sensitive(True)], and which does not touch the input before. *)
Inductive reenables_last {A : Type} : prog A -> Prop :=
| reenables_now a : reenables_last (IdleAdd (cb_set_input_sensitive true) (Ret a))
| reenables_IdleAdd cb k :
    touches_input cb = false -> reenables_last k -> reenables_last (IdleAdd cb k)
| reenables_Sleep n k : reenables_last k -> reenables_last (Sleep n k)
| reenables_RagGetActive k :
    (forall b, reenables_last (k b)) -> reenables_last (RagGetActive k)
| reenables_ReadApiKey k :
    (forall key, reenables_last (k key)) -> reenables_last (ReadApiKey k)
| reenables_RequestsPost rq k :
    (forall r, reenables_last (k r)) -> reenables_last (RequestsPost rq k).

Definition untouched (t : list event) : bool :=
  forallb (fun e => negb (event_touches_input e)) t.

Definition default_answer : value := PyStr (lit "No answer received.").

Inductive body_raises : response -> exn -> Prop :=
| raises_json r detail :
    json r = inl detail -> body_raises r (mk_exn JSONDecodeError detail)
| raises_result r result e :
    json r = inr result ->
    get result (lit "answer") default_answer = inl e ->
    body_raises r e
| raises_quota r result answer quota e :
    json r = inr result ->
    get result (lit "answer") default_answer = inr answer ->
    get result (lit "quota") (PyDict []) = inr quota ->
    truthy quota = true ->
    get quota (lit "remaining") (PyStr (lit "Unknown")) = inl e ->
    body_raises r e.

Inductive terminal_outcome : exn + response -> str -> Prop :=
| terminal_401 r :
    status_code r = 401%Z ->
    terminal_outcome (inr r)
      (lit "Invalid API key. Please check your configuration.")
| terminal_429 r :
    status_code r = 429%Z ->
    terminal_outcome (inr r) (lit "Rate limit exceeded. Please try again later.")
| terminal_503 r :
    status_code r = 503%Z ->
    terminal_outcome (inr r)
      (lit "Service unavailable (503). The Sugar-AI service may be down for maintenance. Please try again later.")
| terminal_other_status r :
    status_code r <> 200%Z -> status_code r <> 401%Z ->
    status_code r <> 429%Z -> status_code r <> 504%Z ->
    status_code r <> 503%Z ->
    terminal_outcome (inr r)
      (lit "API error " ++ str_of_Z (status_code r) ++ lit ": " ++ text r)
| terminal_connection_error e :
    isinstance_Timeout e = false -> isinstance_ConnectionError e = true ->
    terminal_outcome (inl e)
      (lit "Connection error. Please check your internet connection.")
| terminal_unexpected e :
    isinstance_Timeout e = false -> isinstance_ConnectionError e = false ->
    isinstance_Exception e = true ->
    terminal_outcome (inl e) (lit "Unexpected error: " ++ exn_str e)
| terminal_body r e :
    status_code r = 200%Z -> body_raises r e ->
    terminal_outcome (inr r) (lit "Unexpected error: " ++ exn_str e).

(** The attempts before attempt [i], all of them retried. *)
Definition retried_events (w : world) (quoted : str) (i : nat) : list event :=
  flat_map
    (fun j =>
       waiting_events j
       ++ [EvPost (request_for quoted (w j));
           EvIdleAdd (cb_add_system_message (retry_notice (env_post (w j)) (j + 1)))])
    (seq 0 i).

(** What a 200 response with a JSON object makes the worker say. *)
Definition answer_of (items : list (str * value)) : value :=
  match lookup (lit "answer") items with
  | Some answer => answer
  | None => default_answer
  end.

Definition field_or_unknown (key : str) (fields : list (str * value)) : value :=
  match lookup key fields with
  | Some v => v
  | None => PyStr (lit "Unknown")
  end.

Definition quota_notice (repr : value -> str) (items : list (str * value))
  : list callback :=
  match lookup (lit "quota") items with
  | Some (PyDict ((_ :: _) as fields)) =>
      [cb_add_system_message
         (lit "Quota: " ++ py_str repr (field_or_unknown (lit "remaining") fields)
          ++ lit "/" ++ py_str repr (field_or_unknown (lit "total") fields))]
  | _ => []
  end.

(** The [quota] of the body is missing, falsy, or an object. *)
Definition quota_usable (items : list (str * value)) : bool :=
  match lookup (lit "quota") items with
  | None => true
  | Some (PyDict _) => true
  | Some v => negb (truthy v)
  end.

Definition is_answer (cb : callback) : bool :=
  match cb with cb_add_ai_message _ => true | _ => false end.

Definition is_error (cb : callback) : bool :=
  match cb with cb_add_error_message _ => true | _ => false end.

(** Number of requests a world lets the worker send. *)
Definition attempts_made (w : world) : nat :=
  if transient (env_post (w 0%nat)) then
    if transient (env_post (w 1%nat)) then 3 else 2
  else 1.

(** A thread that still has something to do. *)
Definition in_flight (p : prog completion) : bool :=
  match p with Ret _ => false | _ => true end.

(** The checks of [_on_ask_clicked] that end the handler early. *)
Definition request_refused (a : activity) : bool :=
  negb (str_bool (strip (question_entry_text a)))
  || negb (str_bool (_api_key a))
  || _is_requesting a.

(** Requests under way, and re-enablings queued but not yet run. *)
Definition pending (s : system) : nat :=
  List.length (filter in_flight (threads s))
  + List.length (filter touches_input (idle_queue s)).

(** What the guard [_is_requesting] maintains: every worker ends by queueing
    the re-enabling, and while the flag is down nothing is under way. *)
Definition worker_ok (p : prog completion) : Prop :=
  reenables_last p \/ in_flight p = false.

Definition guarded (s : system) : Prop :=
  Forall worker_ok (threads s)
  /\ (pending s <= 1)%nat
  /\ (_is_requesting (ui s) = false -> pending s = 0%nat).

(** The text [read_file] puts in the chat buffer for one entry. *)
Definition rendered (e : entry) : str :=
  if str_eqb (entry_type e) (lit "user") then
    lit "You: " ++ entry_message e ++ blank_line
  else if str_eqb (entry_type e) (lit "ai") then
    lit "Sugar-AI: " ++ entry_message e ++ blank_line
  else [].

Definition is_header (line : str) : bool :=
  startswith (lit "You: ") line || startswith (lit "Sugar-AI: ") line.

(** A message the parser of [write_file] gives back as it was: not empty, no
    white space at either end, and no line after the first that looks like
    the start of an entry. *)
Definition plain_message (m : str) : bool :=
  str_bool m && str_eqb (strip m) m
  && forallb (fun line => negb (is_header line)) (tl (split newline m)).

Definition storable (e : entry) : bool :=
  (str_eqb (entry_type e) (lit "user") || str_eqb (entry_type e) (lit "ai"))
  && plain_message (entry_message e).

(** The parser between two entries: nothing pending, or a storable message
    followed by the newline that ends its last line. *)
Definition settled (st : parse_state) : Prop :=
  current_message st = []
  \/ exists e, storable e = true
               /\ current_message st = entry_message e ++ [newline]
               /\ current_type st = Some (entry_type e).

(** ** Data of the examples *)

(** In the examples no float, list or dict is printed, so any [repr] does. *)
Definition any_repr (v : value) : str := lit "<object>".

Definition loop_question : str := lit "What is a loop?".
Definition loop_question_quoted : str := lit "What%20is%20a%20loop%3F".

(** A world where nothing changes and every request ends the same way. *)
Definition steady (r : exn + response) : world :=
  fun _ => mk_env true (lit "secret") r.

Definition read_timeout : exn + response :=
  inl (mk_exn ReadTimeout (lit "Read timed out. (read timeout=300)")).

Definition unauthorized : exn + response :=
  inr (mk_response 401 (lit "Unauthorized") (inr (PyDict []))).

Definition loop_body : value :=
  PyDict [(lit "answer", PyStr (lit "A loop repeats code."));
          (lit "quota", PyDict [(lit "remaining", PyInt 9); (lit "total", PyInt 10)])].

Definition loop_answer : exn + response :=
  inr (mk_response 200 [] (inr loop_body)).

Definition html_page : exn + response :=
  inr (mk_response 200 (lit "<html>Bad gateway</html>")
         (inl (lit "Expecting value: line 1 column 1 (char 0)"))).



Definition gateway_timeout : exn + response :=
  inr (mk_response 504 [] (inl (lit "Expecting value: line 1 column 1 (char 0)"))).

(** Scenario B: two 504 responses, then the answer. *)
Definition third_time_lucky : world :=
  fun i => mk_env true (lit "secret")
             (if (i <? 2)%nat then gateway_timeout
              else inr (mk_response 200 []
                          (inr (PyDict [(lit "answer", PyStr (lit "ok"))])))).

(** The user switches RAG off and saves another key while the worker waits
    for its first retry. *)
Definition changed_while_waiting : world :=
  fun i => mk_env (i =? 0)%nat
             (if (i =? 0)%nat then lit "old-key" else lit "new-key")
             gateway_timeout.

Definition tidy_history : list entry :=
  [mk_entry (lit "user") (lit "hi"); mk_entry (lit "ai") (lit "ok")].

Definition indented_history : list entry :=
  [mk_entry (lit "user") (lit "hi"); mk_entry (lit "ai") (lit " ok")].

Definition quoting_history : list entry :=
  [mk_entry (lit "user") (lit "hi");
   mk_entry (lit "ai") (lit "Type" ++ [newline] ++ lit "You: hi")].

(** The activity with a key, a question typed in, and nothing under way. *)
Definition ready_to_ask : activity :=
  with_question_entry_text (lit " What is a loop? ") (initial_activity (lit "secret")).

(** ** More of the activity *)

(** ** The configuration file

    [data/config.json] under the activity root, as [_load_api_key] and
    [_save_api_key] see it: missing, unreadable ([open] or [json.load]
    raises), or holding a JSON value. *)

Inductive config_file : Type :=
| NoFile
| Unreadable
| Holds (v : value).

Record disk : Type := mk_disk {
  data_dir_exists : bool;
  config_json : config_file
}.

(** [_load_api_key]: the new value of [self._api_key]. *)
Definition _load_api_key (d : disk) (current : value) : value :=
  if data_dir_exists d then
    match config_json d with
    | NoFile => current
    | Unreadable => current
    | Holds config =>
        match get config (lit "api_key") (PyStr []) with
        | inl _ => current
        | inr key => key
        end
    end
  else current.

(** How the writing of [_save_api_key] ends: done, or stopped by an
    exception of [os.makedirs], of [open], or of [json.dump] and the closing
    of the file, which [open] has emptied by then. *)
Inductive save_outcome : Type :=
| Saved
| MakedirsFails
| OpenFails
| WriteFails.

(** [_save_api_key], on the value of [self._api_key]. *)
Definition _save_api_key (o : save_outcome) (key : value) (d : disk) : disk :=
  match o with
  | MakedirsFails => d
  | OpenFails => mk_disk true (config_json d)
  | WriteFails => mk_disk true Unreadable
  | Saved => mk_disk true (Holds (PyDict [(lit "api_key", key)]))
  end.

(** A file lies in a directory that exists. *)
Definition disk_ok (d : disk) : Prop :=
  data_dir_exists d = false -> config_json d = NoFile.

(** A callback that ends a request for the user: the answer or an error. *)
Definition is_report (cb : callback) : bool := is_answer cb || is_error cb.

(** No exception outside [Exception] comes out of [requests.post]. *)
Definition catchable (w : world) : Prop :=
  forall i e, env_post (w i) = inl e -> isinstance_Exception e = true.

(** The main loop runs the callbacks of a queue, first in first out. *)
Definition dispatch_all (repr : value -> str) (cbs : list callback) (a : activity)
  : activity :=
  fold_left (fun a0 cb => run_callback repr cb a0) cbs a.

(** The entry, the button and its label say what [_is_requesting] says. *)
Definition consistent (a : activity) : Prop :=
  question_entry_sensitive a = negb (_is_requesting a)
  /\ ask_button_sensitive a = negb (_is_requesting a)
  /\ ask_button_label a = (if _is_requesting a then lit "Thinking..." else lit "Ask").

Definition replaces_transcript (act : action) : bool :=
  match act with
  | ActClearClicked | ActReadFile _ => true
  | _ => false
  end.

Definition sets_api_key (act : action) : bool :=
  match act with
  | ActApiKeySaved _ | ActReadFile _ => true
  | _ => false
  end.

(** An entry [read_file] shows in the chat buffer. *)
Definition shown (e : entry) : bool :=
  str_eqb (entry_type e) (lit "user") || str_eqb (entry_type e) (lit "ai").

Definition thinking_notice : str :=
  lit "Sugar-AI is thinking... This may take 2-5 minutes, please be patient.".

(** What the parser of [write_file] keeps true of its variables. *)
Definition well_typed (ty : option str) : Prop :=
  ty = None \/ ty = Some (lit "user") \/ ty = Some (lit "ai").

Definition saved_entry (e : entry) : Prop :=
  (entry_type e = lit "user" \/ entry_type e = lit "ai")
  /\ strip (entry_message e) = entry_message e.

(** More data for the examples. *)

(** A 504 response, then a 401. *)
Definition unauthorized_on_retry : world :=
  fun i => mk_env true (lit "secret")
             (if (i =? 0)%nat then gateway_timeout else unauthorized).

(** A string with a lone surrogate, U+D800. *)
Definition lone_surrogate : str := [55296%N].

(** The activity after Clear and one question shown. *)
Definition cleared_then_asked : activity :=
  _add_user_message (lit "hi")
    (_on_clear_clicked (initial_activity (lit "secret"))).

(** The system once the question of [ready_to_ask] has been asked. *)
Definition asked : system :=
  mk_system (fst (_on_ask_clicked any_repr ready_to_ask)) []
            ([] ++ spawned (snd (_on_ask_clicked any_repr ready_to_ask))).

(** A configuration file that holds a key. *)
Definition saved_disk : disk :=
  mk_disk true (Holds (PyDict [(lit "api_key", PyStr (lit "secret"))])).

(** ** What [requests] puts on the wire

    [requests.post(url, params=...)] encodes the names and values of [params]
    to UTF-8 and appends [urlencode] of them to the URL.  [urlencode] passes
    each through [quote_plus] with no safe character: letters, digits and
    [_.-~] stay, a space becomes [+], and every other byte, [%] and [/]
    among them, is percent-encoded. *)

Definition unreserved (b : N) : bool := (quote_safe b && negb (b =? 47))%N.

Definition plus : N := 43%N.
Definition space : N := 32%N.

Definition quote_plus_byte (b : N) : str :=
  if (b =? space)%N then [plus]
  else if unreserved b then [b]
  else [percent; hex_digit (b / 16); hex_digit (b mod 16)]%N.

Definition quote_plus (s : str) : exn + str :=
  match utf8_encode s with
  | Some bs => inr (flat_map quote_plus_byte bs)
  | None => inl (unicode_encode_error s)
  end.

(** [urlencode(params)]: [name=value] pairs joined by [&]. *)
Fixpoint urlencode (params : list (str * str)) : exn + str :=
  match params with
  | [] => inr []
  | (name, v) :: rest =>
      match quote_plus name, quote_plus v, urlencode rest with
      | inr n, inr x, inr [] => inr (n ++ lit "=" ++ x)
      | inr n, inr x, inr (c :: more) => inr (n ++ lit "=" ++ x ++ lit "&" ++ c :: more)
      | inl e, _, _ => inl e
      | _, inl e, _ => inl e
      | _, _, inl e => inl e
      end
  end.

(** The URL [requests] sends for a URL that has a path and no query of its
    own, as those of the activity: the query is appended after [?].  (The
    last pass of [requests], [requote_uri], leaves such a URL as it is: every
    escape in it is of a byte outside the unreserved characters.) *)
Definition prepared_url (rq : request) : exn + str :=
  match urlencode (params rq) with
  | inl e => inl e
  | inr [] => inr (url rq)
  | inr (c :: query) => inr (url rq ++ lit "?" ++ c :: query)
  end.

(** What the server reads of a value of the query string: [+] is a space,
    then the escapes are decoded. *)
Definition unquote_plus_to_bytes (s : str) : list N :=
  unquote_to_bytes (map (fun c => if (c =? plus)%N then space else c) s).

Definition ascii_only (s : str) : Prop := Forall (fun c => (c < 128)%N) s.

(** ** Code on threads

    The activity once more, operation by operation.  Every thread runs code
    made of the same operations; which thread reads a field, changes a
    widget, sleeps or posts is decided by what the code of the activity
    calls where, not by the machine that runs it. *)

Inductive code : Type :=
| Finished
| Reads (k : activity -> code)
| Mutates (change : activity -> activity) (k : code)
| Queues (cb : callback) (k : code)
| Sleeps (seconds : nat) (k : code)
| Posts (rq : request) (k : exn + response -> code)
| Starts (target : code) (k : code).

(** A program of the worker as code: [GLib.idle_add] queues, [time.sleep]
    sleeps, [requests.post] posts, and the toggle and the key are read where
    the program reads them. *)
Fixpoint on_thread {A : Type} (p : prog A) : code :=
  match p with
  | Ret _ => Finished
  | IdleAdd cb k => Queues cb (on_thread k)
  | Sleep n k => Sleeps n (on_thread k)
  | RagGetActive k => Reads (fun a => on_thread (k (rag_button_active a)))
  | ReadApiKey k => Reads (fun a => on_thread (k (_api_key a)))
  | RequestsPost rq k => Posts rq (fun r => on_thread (k r))
  end.

(** What a thread is seen to do in one step. *)
Inductive deed : Type :=
| DidTake (act : action)
| DidRead
| DidMutate
| DidQueue (cb : callback)
| DidSleep (seconds : nat)
| DidPost (rq : request) (result : exn + response)
| DidStart
| DidStartFail.

(** The deeds that can take minutes. *)
Definition blocks (d : deed) : bool :=
  match d with
  | DidSleep _ | DidPost _ _ => true
  | _ => false
  end.

(** One operation, on whichever thread it is: the activity and the idle
    queue before and after, the code left to run, and the thread started, if
    any.  [Thread.start()] may raise ([RuntimeError: can't start new
    thread]); the exception then leaves the handler, which has no [try]
    around the call. *)
Inductive perform :
  activity -> list callback -> code -> deed ->
  activity -> list callback -> code -> option code -> Prop :=
| perform_reads a q k :
    perform a q (Reads k) DidRead a q (k a) None
| perform_mutates a q change k :
    perform a q (Mutates change k) DidMutate (change a) q k None
| perform_queues a q cb k :
    perform a q (Queues cb k) (DidQueue cb) a (q ++ [cb]) k None
| perform_sleeps a q n k :
    perform a q (Sleeps n k) (DidSleep n) a q k None
| perform_posts a q rq k result :
    perform a q (Posts rq k) (DidPost rq result) a q (k result) None
| perform_starts a q target k :
    perform a q (Starts target k) DidStart a q k (Some target)
| perform_start_fails a q target k :
    perform a q (Starts target k) DidStartFail a q Finished None.

Definition started_by (new : option code) (ws : list code) : list code :=
  match new with
  | Some target => ws ++ [target]
  | None => ws
  end.

(** The main thread runs the main loop, which takes up one signal or one
    queued callback at a time; the other threads are those started so far. *)
Record machine : Type := mk_machine {
  m_ui : activity;
  m_idle : list callback;
  m_main : code;
  m_workers : list code
}.

Section Threads.
Variable repr : value -> str.

(** [_on_ask_clicked], statement by statement (lines 278-308). *)
Definition _on_ask_clicked_code : code :=
  Reads (fun a =>
    let question := strip (question_entry_text a) in
    if negb (str_bool question) then Finished
    else Reads (fun a0 =>
      if negb (str_bool (_api_key a0)) then
        Mutates (_show_error_alert (lit "Please configure your API key first."))
          Finished
      else Reads (fun a1 =>
        if _is_requesting a1 then Finished
        else
          Mutates (with_question_entry_text [])
         (Mutates (_add_user_message question)
         (Mutates (_add_system_message
            (lit "Sugar-AI is thinking... This may take 2-5 minutes, please be patient."))
         (Mutates (_set_input_sensitive false)
         (Starts (on_thread (_make_api_request repr question)) Finished))))))).

(** The handler the main loop runs for a signal. *)
Definition handler (act : action) : option code :=
  match act with
  | ActEntryChanged text => Some (Mutates (with_question_entry_text text) Finished)
  | ActAskClicked => Some _on_ask_clicked_code
  | ActRagToggled =>
      Some (Mutates (fun a => with_rag_button_active (negb (rag_button_active a)) a)
              Finished)
  | ActApiKeySaved key_text => Some (Mutates (_on_save_clicked key_text) Finished)
  | ActClearClicked => Some (Mutates _on_clear_clicked Finished)
  | ActReadFile data => Some (Mutates (read_file repr data) Finished)
  | _ => None
  end.

Inductive exec : machine -> thread_id -> deed -> machine -> Prop :=
| exec_signal a q ws act c :
    handler act = Some c ->
    exec (mk_machine a q Finished ws) MainThread (DidTake act)
         (mk_machine a q c ws)
| exec_idle a cb q ws :
    exec (mk_machine a (cb :: q) Finished ws) MainThread
         (DidTake (ActIdleDispatch cb))
         (mk_machine a q (Mutates (run_callback repr cb) Finished) ws)
| exec_main a q c ws d a' q' c' new :
    perform a q c d a' q' c' new ->
    exec (mk_machine a q c ws) MainThread d
         (mk_machine a' q' c' (started_by new ws))
| exec_worker a q m before c after d a' q' c' new :
    perform a q c d a' q' c' new ->
    exec (mk_machine a q m (before ++ c :: after))
         (WorkerThread (List.length before)) d
         (mk_machine a' q' m (started_by new (before ++ c' :: after))).

Inductive execs : machine -> list (thread_id * deed) -> machine -> Prop :=
| execs_nil m : execs m [] m
| execs_cons m t d m1 rest m2 :
    exec m t d m1 -> execs m1 rest m2 -> execs m ((t, d) :: rest) m2.

Definition initial_machine (key : str) : machine :=
  mk_machine (initial_activity key) [] Finished [].

Definition running (m : machine) : Prop :=
  exists key steps, execs (initial_machine key) steps m.

End Threads.





(** The input is disabled, and the widgets say so. *)
Definition disabled (a : activity) : Prop :=
  _is_requesting a = true /\ consistent a.

(** Code that leaves a disabled input disabled: it queues nothing and starts
    nothing, and what it changes keeps [_is_requesting] up. *)
Inductive keeps_disabled : code -> Prop :=
| kd_finished : keeps_disabled Finished
| kd_reads k :
    (forall a, disabled a -> keeps_disabled (k a)) -> keeps_disabled (Reads k)
| kd_mutates change k :
    (forall a, disabled a -> disabled (change a)) ->
    keeps_disabled k -> keeps_disabled (Mutates change k).

(** No request is under way and none will end: the input is disabled, no
    worker is left to re-enable it and no re-enabling is queued. *)
Definition disabled_for_good (m : machine) : Prop :=
  disabled (m_ui m)
  /\ forallb (fun cb => negb (touches_input cb)) (m_idle m) = true
  /\ keeps_disabled (m_main m)
  /\ Forall (eq Finished) (m_workers m).

(** The steps of the main thread through an accepted click, up to the
    start of the thread. *)
Definition click_steps (start : deed) : list (thread_id * deed) :=
  map (pair MainThread)
    [DidTake ActAskClicked; DidRead; DidRead; DidRead;
     DidMutate; DidMutate; DidMutate; DidMutate; start].

(** ** [read_file] on whatever the file holds

    [json.load] may return any value, and a file written by another program
    any entries.  [read_file] runs inside one [try]: the first statement that
    raises ends it, with what was assigned and shown so far left as it is. *)

(** [v[key]] with a string key: the item of a dict.  [None] stands for the
    [KeyError] of a missing key and for the [TypeError] of a value that is
    no dict. *)
Definition subscript (v : value) (key : str) : option value :=
  match v with
  | PyDict items => lookup key items
  | _ => None
  end.

(** [v == s] for a string literal [s]. *)
Definition equals_str (v : value) (s : str) : bool :=
  match v with
  | PyStr t => str_eqb t s
  | _ => false
  end.

(** [for entry in v]: the items of a list, the keys of a dict, the
    characters of a string; [None] for the [TypeError] of any other value. *)
Definition iterate (v : value) : option (list value) :=
  match v with
  | PyList items => Some items
  | PyDict items => Some (map (fun item => PyStr (fst item)) items)
  | PyStr s => Some (map (fun c => PyStr [c]) s)
  | _ => None
  end.

(** What [read_file] assigns and shows. *)
Record restored : Type := mk_restored {
  restored_api_key : value;
  restored_history : value;
  restored_buffer : str
}.

Section ReadFile.
Variable repr : value -> str.

(** The loop of lines 503-507 on the chat buffer; it ends at the first entry
    that makes [entry["type"]] or [entry["message"]] raise. *)
Fixpoint restore_entries_json (entries : list value) (buffer : str) : str :=
  match entries with
  | [] => buffer
  | e :: rest =>
      match subscript e (lit "type") with
      | None => buffer
      | Some ty =>
          if equals_str ty (lit "user") then
            match subscript e (lit "message") with
            | None => buffer
            | Some message =>
                restore_entries_json rest
                  (buffer ++ lit "You: " ++ py_str repr message ++ blank_line)
            end
          else if equals_str ty (lit "ai") then
            match subscript e (lit "message") with
            | None => buffer
            | Some message =>
                restore_entries_json rest
                  (buffer ++ lit "Sugar-AI: " ++ py_str repr message ++ blank_line)
            end
          else restore_entries_json rest buffer
      end
  end.

(** Lines 497-507 on the value [json.load] returned. *)
Definition read_file_json (data : value) (before : restored) : restored :=
  match get data (lit "api_key") (PyStr []) with
  | inl _ => before
  | inr key =>
      match get data (lit "conversation_history") (PyList []) with
      | inl _ => mk_restored key (restored_history before) (restored_buffer before)
      | inr history =>
          mk_restored key history
            (match iterate history with
             | Some entries => restore_entries_json entries []
             | None => []
             end)
      end
  end.

(** What the loop shows of one entry, as an entry of a session; [None] when
    the entry ends the loop. *)
Definition displayed_entry (e : value) : option (list entry) :=
  match subscript e (lit "type") with
  | None => None
  | Some ty =>
      if equals_str ty (lit "user") then
        option_map (fun message => [mk_entry (lit "user") (py_str repr message)])
                   (subscript e (lit "message"))
      else if equals_str ty (lit "ai") then
        option_map (fun message => [mk_entry (lit "ai") (py_str repr message)])
                   (subscript e (lit "message"))
      else Some []
  end.

(** The entries shown: those of type [user] or [ai] that come before the
    first entry ending the loop. *)
Fixpoint displayed (entries : list value) : list entry :=
  match entries with
  | [] => []
  | e :: rest =>
      match displayed_entry e with
      | None => []
      | Some shown => shown ++ displayed rest
      end
  end.

End ReadFile.

(** The document [write_file] dumps for a session. *)
Definition json_of_entry (e : entry) : value :=
  PyDict [(lit "type", PyStr (entry_type e)); (lit "message", PyStr (entry_message e))].

Definition json_of_session (data : session) : value :=
  PyDict [(lit "api_key", PyStr (session_api_key data));
          (lit "conversation_history",
           PyList (map json_of_entry (session_conversation_history data)))].

(** A file written by another program: an entry of another type, then an
    entry without its message, then an answer. *)
Definition foreign_file : value :=
  PyDict
    [(lit "api_key", PyStr (lit "secret"));
     (lit "conversation_history",
      PyList
        [PyDict [(lit "type", PyStr (lit "user")); (lit "message", PyStr (lit "hi"))];
         PyDict [(lit "type", PyStr (lit "system")); (lit "message", PyStr (lit "note"))];
         PyDict [(lit "type", PyStr (lit "ai")); (lit "message", PyStr (lit "ok"))];
         PyDict [(lit "type", PyStr (lit "ai"))];
         PyDict [(lit "type", PyStr (lit "ai")); (lit "message", PyStr (lit "lost"))]])].

(** * Facts *)

Arguments lit : simpl never.
Arguments str_of_nat : simpl never.
Arguments str_of_Z : simpl never.
Arguments quote : simpl never.
Arguments _api_base_url : simpl never.

(** ** Percent-encoding *)

Lemma utf8_of_codepoint_bytes c :
  match utf8_of_codepoint c with
  | Some bs => Forall (fun b => (b < 256)%N) bs
  | None => True
  end.
Proof.
  unfold utf8_of_codepoint.
  assert (Hm : forall x, (x mod 64 < 64)%N) by (intros x; apply N.mod_lt; discriminate).
  pose proof (Hm c). pose proof (Hm (c / 64)%N). pose proof (Hm (c / 4096)%N).
  destruct (N.ltb_spec c 128).
  { repeat (apply Forall_cons; [lia|]); apply Forall_nil. }
  destruct (N.ltb_spec c 2048).
  { assert (c / 64 < 32)%N by (apply N.Div0.div_lt_upper_bound; lia).
    repeat (apply Forall_cons; [lia|]); apply Forall_nil. }
  destruct (N.ltb_spec c 65536).
  { destruct ((55296 <=? c) && (c <? 57344))%N; [exact I|].
    assert (c / 4096 < 16)%N by (apply N.Div0.div_lt_upper_bound; lia).
    repeat (apply Forall_cons; [lia|]); apply Forall_nil. }
  destruct (N.ltb_spec c 1114112); [|exact I].
  assert (c / 262144 < 8)%N by (apply N.Div0.div_lt_upper_bound; lia).
  repeat (apply Forall_cons; [lia|]); apply Forall_nil.
Qed.

Lemma utf8_encode_bytes s bs :
  utf8_encode s = Some bs -> Forall (fun b => (b < 256)%N) bs.
Proof.
  revert bs. induction s as [|c s IH]; intros bs; cbn [utf8_encode].
  - intros [= <-]. constructor.
  - destruct (utf8_of_codepoint c) as [cs|] eqn:Ec; [|discriminate].
    destruct (utf8_encode s) as [rest|]; [|discriminate].
    intros [= <-]. apply Forall_app. split; auto.
    pose proof (utf8_of_codepoint_bytes c) as Hc. rewrite Ec in Hc. exact Hc.
Qed.

Lemma hex_value_hex_digit d :
  (d < 16)%N -> hex_value (hex_digit d) = Some d.
Proof.
  intros Hd.
  assert (H : In d [0;1;2;3;4;5;6;7;8;9;10;11;12;13;14;15]%N).
  { cbn [In].
    destruct d as [|p]; [auto|].
    do 4 (try destruct p as [p|p|]); cbn; try lia; auto 20. }
  cbn [In] in H.
  repeat (destruct H as [<- | H]; [reflexivity|]). contradiction.
Qed.

Lemma quote_safe_not_percent b : quote_safe b = true -> N.eqb b percent = false.
Proof.
  intros Hs. apply N.eqb_neq. intros ->. discriminate Hs.
Qed.

Lemma unquote_quote_from_bytes bs :
  Forall (fun b => (b < 256)%N) bs ->
  unquote_to_bytes (quote_from_bytes bs) = bs.
Proof.
  induction 1 as [|b bs Hb _ IH]; [reflexivity|].
  unfold quote_from_bytes in *. cbn [flat_map]. unfold quote_byte at 1.
  destruct (quote_safe b) eqn:Es.
  - cbn [app unquote_to_bytes]. rewrite (quote_safe_not_percent _ Es). now rewrite IH.
  - cbn [app unquote_to_bytes]. rewrite N.eqb_refl.
    rewrite !hex_value_hex_digit.
    + rewrite IH. f_equal. symmetry. rewrite N.add_comm.
      pose proof (N.div_mod b 16). lia.
    + apply N.mod_lt. discriminate.
    + apply N.Div0.div_lt_upper_bound. lia.
Qed.

Lemma quote_decodes s quoted :
  quote s = inr quoted ->
  exists bytes,
    utf8_encode s = Some bytes /\ quoted = quote_from_bytes bytes
    /\ unquote_to_bytes quoted = bytes.
Proof.
  unfold quote. destruct (utf8_encode s) as [bytes|] eqn:E; [|discriminate].
  intros [= <-]. exists bytes. repeat split.
  apply unquote_quote_from_bytes. eapply utf8_encode_bytes; eauto.
Qed.

(** ** Runs of the worker *)

Lemma run_bind {A B} (w : world) (p : prog A) (f : A -> prog B) :
  forall i,
  run w i (bind p f) =
    let (t1, a) := run w i p in
    let (t2, b) := run w (i + List.length (requests_of t1)) (f a) in
    (t1 ++ t2, b).
Proof.
  induction p as [a | cb k IH | n k IH | k IH | k IH | rq k IH]; intros i; simpl.
  - rewrite Nat.add_0_r. destruct (run w i (f a)); reflexivity.
  - rewrite IH. destruct (run w i k) as [t1 a]. simpl.
    destruct (run w _ (f a)); reflexivity.
  - rewrite IH. destruct (run w i k) as [t1 a]. simpl.
    destruct (run w _ (f a)); reflexivity.
  - apply IH.
  - apply IH.
  - rewrite IH. destruct (run w (S i) _) as [t1 a]. simpl.
    rewrite Nat.add_succ_r. destruct (run w _ (f a)); reflexivity.
Qed.

Lemma requests_of_app t1 t2 : requests_of (t1 ++ t2) = requests_of t1 ++ requests_of t2.
Proof. induction t1 as [|[] t1 IH]; simpl; auto. now rewrite IH. Qed.

Lemma io_of_app t1 t2 : io_of (t1 ++ t2) = io_of t1 ++ io_of t2.
Proof. induction t1 as [|[] t1 IH]; simpl; auto; now rewrite IH. Qed.

Lemma requests_of_idle cbs : requests_of (map EvIdleAdd cbs) = [].
Proof. induction cbs; simpl; auto. Qed.

Lemma io_of_idle cbs : io_of (map EvIdleAdd cbs) = [].
Proof. induction cbs; simpl; auto. Qed.

Lemma requests_of_waiting a : requests_of (waiting_events a) = [].
Proof. destruct a; reflexivity. Qed.

(** The four ways an attempt can end: with an outcome the worker retries, a
    terminal outcome, a usable answer, or an exception no handler catches. *)
Lemma every_outcome_is_classified (r : exn + response) :
  transient r = true
  \/ (exists msg, terminal_outcome r msg)
  \/ (exists resp items,
        r = inr resp /\ status_code resp = 200%Z
        /\ json resp = inr (PyDict items) /\ quota_usable items = true)
  \/ (exists e, r = inl e /\ isinstance_Exception e = false).
Proof.
  destruct r as [e | resp]; cbn [transient].
  - destruct (isinstance_Timeout e) eqn:Et; [now left|].
    destruct (isinstance_ConnectionError e) eqn:Ec.
    { right; left. eexists. apply terminal_connection_error; assumption. }
    destruct (isinstance_Exception e) eqn:Ee.
    { right; left. eexists. apply terminal_unexpected; assumption. }
    right; right; right. exists e. auto.
  - destruct (Z.eqb_spec (status_code resp) 504) as [E504 | N504]; [now left|].
    destruct (Z.eq_dec (status_code resp) 200) as [E200 | N200].
    2:{ right; left.
        destruct (Z.eq_dec (status_code resp) 401) as [E401 | N401];
          [eexists; apply terminal_401; assumption|].
        destruct (Z.eq_dec (status_code resp) 429) as [E429 | N429];
          [eexists; apply terminal_429; assumption|].
        destruct (Z.eq_dec (status_code resp) 503) as [E503 | N503];
          [eexists; apply terminal_503; assumption|].
        eexists; apply terminal_other_status; assumption. }
    destruct (json resp) as [detail | result] eqn:Ej.
    { right; left. eexists. apply terminal_body; [assumption|].
      apply raises_json. exact Ej. }
    destruct (get result (lit "answer") default_answer) as [e | answer] eqn:Ea.
    { right; left. eexists. apply terminal_body; [assumption|].
      eapply raises_result; eassumption. }
    destruct result as [| | | | | | items]; try discriminate Ea.
    destruct (quota_usable items) eqn:Eu.
    { right; right; left. exists resp, items. auto. }
    right; left. unfold quota_usable in Eu.
    destruct (lookup (lit "quota") items) as [quota|] eqn:El; [|discriminate Eu].
    assert (Hq : get (PyDict items) (lit "quota") (PyDict []) = inr quota)
      by (cbn [get]; rewrite El; reflexivity).
    destruct quota as [| b | z | f | s0 | l | fields]; try discriminate Eu;
      apply negb_false_iff in Eu;
      (eexists; apply terminal_body; [assumption|];
       eapply raises_quota; [exact Ej | exact Ea | exact Hq | exact Eu | reflexivity]).
Qed.

Ltac decide_transient :=
  cbv [transient];
  first [ reflexivity | assumption | apply Z.eqb_neq; lia | apply Z.eqb_eq; lia ].

Lemma quiet_bind {A B} (p : prog A) (f : A -> prog B) :
  quiet p -> (forall a, quiet (f a)) -> quiet (bind p f).
Proof.
  intros Hp Hf. induction Hp; simpl; auto; constructor; auto.
Qed.

Lemma quiet_then_reenable {A} (p : prog A) :
  quiet p ->
  reenables_last (bind p (fun c => bind (idle_add (cb_set_input_sensitive true)) (fun _ => Ret c))).
Proof.
  intros Hp. induction Hp; simpl; try (constructor; auto).
Qed.

Ltac quiet_step :=
  match goal with
  | |- quiet (bind _ _) => apply quiet_bind
  | |- quiet (Ret _) => apply quiet_Ret
  | |- quiet (IdleAdd _ _) => apply quiet_IdleAdd; [reflexivity | ]
  | |- quiet (Sleep _ _) => apply quiet_Sleep
  | |- quiet (RagGetActive _) => apply quiet_RagGetActive; intro
  | |- quiet (ReadApiKey _) => apply quiet_ReadApiKey; intro
  | |- quiet (RequestsPost _ _) => apply quiet_RequestsPost; intro
  | |- quiet (idle_add _) => unfold idle_add
  | |- quiet (sleep _) => unfold sleep
  | |- quiet rag_get_active => unfold rag_get_active
  | |- quiet read_api_key => unfold read_api_key
  | |- quiet (requests_post _) => unfold requests_post
  | |- quiet (match ?x with _ => _ end) => destruct x
  | |- quiet (if ?x then _ else _) => destruct x
  | |- forall _, _ => intro
  end.

Section Facts.
Variable repr : value -> str.

Lemma quiet_attempt_iteration q a : quiet (attempt_iteration repr q a).
Proof.
  unfold attempt_iteration, attempt_body, announce_retry, handle_exception,
    handle_response, handle_success.
  repeat quiet_step.
Qed.

Lemma quiet_for_each (body : nat -> prog completion) l :
  (forall a, quiet (body a)) -> quiet (for_each l body).
Proof.
  intros Hb. induction l as [|a l IH]; simpl.
  - constructor.
  - apply quiet_bind; [apply Hb|]. intros []; auto; constructor.
Qed.

Lemma make_api_request_reenables_last q : reenables_last (_make_api_request repr q).
Proof.
  unfold _make_api_request, try_finally. apply quiet_then_reenable.
  apply quiet_for_each. intros a. apply quiet_attempt_iteration.
Qed.


(** What one turn of the loop does once the request is out: callbacks only. *)
Lemma handle_success_run w i r :
  exists cbs c,
    run w i (handle_success repr r) = (map EvIdleAdd cbs, c)
    /\ (c = Return \/ exists e, c = Raise e /\ isinstance_Timeout e = false).
Proof.
  unfold handle_success, response_json.
  destruct (json r) as [msg | result]; simpl.
  { exists [], (Raise (mk_exn JSONDecodeError msg)). split; eauto. }
  destruct (get result (lit "answer") _) as [e | answer] eqn:Ea; simpl.
  { exists [], (Raise e). split; auto. right. exists e. split; auto.
    destruct result; simpl in Ea; try discriminate; inversion Ea; reflexivity. }
  destruct (get result (lit "quota") _) as [e | quota] eqn:Eq; simpl.
  { exists [], (Raise e). split; auto. right. exists e. split; auto.
    destruct result; simpl in Eq; try discriminate; inversion Eq; reflexivity. }
  destruct (truthy quota); simpl.
  - destruct (get quota (lit "remaining") _) as [e | remaining] eqn:Er; simpl.
    { exists [], (Raise e). split; auto. right. exists e. split; auto.
      destruct quota; simpl in Er; try discriminate; inversion Er; reflexivity. }
    destruct (get quota (lit "total") _) as [e | total] eqn:Et; simpl.
    { exists [], (Raise e). split; auto. right. exists e. split; auto.
      destruct quota; simpl in Et; try discriminate; inversion Et; reflexivity. }
    eexists [_; _], Return. split; [reflexivity | auto].
  - eexists [_], Return. split; [reflexivity | auto].
Qed.

Lemma attempt_iteration_run w i q quoted a :
  quote q = inr quoted -> (a < max_retries)%nat ->
  exists cbs c,
    run w i (attempt_iteration repr q a)
    = (waiting_events a ++ EvPost (request_for quoted (w i)) :: map EvIdleAdd cbs, c)
    /\ (if transient (env_post (w i)) then c = Continue
        else c = Return \/ exists e, c = Raise e).
Proof.
  intros Hq Ha. unfold attempt_iteration.
  rewrite run_bind.
  assert (Hbody : exists cbs c,
    run w i (attempt_body repr q a)
    = (waiting_events a ++ EvPost (request_for quoted (w i)) :: map EvIdleAdd cbs, c)
    /\ match c with
       | Normal => False
       | Continue => transient (env_post (w i)) = true
       | Return => transient (env_post (w i)) = false
       | Raise e => env_post (w i) = inl e
                    \/ (transient (env_post (w i)) = false /\ isinstance_Timeout e = false)
       end).
  { unfold attempt_body. rewrite run_bind.
    assert (Hw : run w i (announce_retry a) = (waiting_events a, Normal)).
    { unfold max_retries in Ha. destruct a as [|[|[|a]]]; try lia; reflexivity. }
    rewrite Hw. rewrite requests_of_waiting. simpl List.length. rewrite Nat.add_0_r.
    simpl. rewrite Hq. simpl.
    fold (request_for quoted (w i)).
    destruct (env_post (w i)) as [e | r] eqn:Ep; simpl.
    { exists [], (Raise e). rewrite ?app_nil_r. split; [reflexivity | auto]. }
    unfold handle_response.
    destruct (Z.eqb_spec (status_code r) 200) as [E200 | N200].
    { destruct (handle_success_run w (S i) r) as (cbs & c & E & Hc).
      rewrite E. exists cbs, c. rewrite ?app_nil_r. split; [reflexivity|].
      assert (Hn : (status_code r =? 504)%Z = false) by (apply Z.eqb_neq; lia).
      destruct Hc as [-> | (e & -> & He)]; cbv [transient]; auto. }
    destruct (Z.eqb_spec (status_code r) 401) as [E401 | N401].
    { simpl. eexists [_], Return. rewrite ?app_nil_r. split; [reflexivity|].
      decide_transient. }
    destruct (Z.eqb_spec (status_code r) 429) as [E429 | N429].
    { simpl. eexists [_], Return. rewrite ?app_nil_r. split; [reflexivity|].
      decide_transient. }
    destruct (Z.eqb_spec (status_code r) 504) as [E504 | N504].
    { destruct (a =? max_retries - 1)%nat; simpl;
        eexists [_], Continue; rewrite ?app_nil_r; (split; [reflexivity|]);
        decide_transient. }
    destruct (Z.eqb_spec (status_code r) 503) as [E503 | N503].
    { simpl. eexists [_], Return. rewrite ?app_nil_r. split; [reflexivity|].
      decide_transient. }
    simpl. eexists [_], Return. rewrite ?app_nil_r. split; [reflexivity|].
    decide_transient. }
  destruct Hbody as (cbs & c & E & Hc). rewrite E.
  rewrite requests_of_app, requests_of_waiting. simpl requests_of.
  rewrite requests_of_idle. simpl List.length.
  destruct c as [| | | e]; simpl.
  - contradiction.
  - exists cbs, Continue. rewrite ?app_nil_r. rewrite Hc. split; reflexivity.
  - exists cbs, Return. rewrite ?app_nil_r. rewrite Hc. split; auto.
  - unfold handle_exception.
    assert (Ht : transient (env_post (w i)) = isinstance_Timeout e).
    { destruct Hc as [-> | [-> ->]]; reflexivity. }
    rewrite Ht.
    destruct (isinstance_Timeout e).
    { destruct (a =? max_retries - 1)%nat; simpl;
        eexists (cbs ++ [_]), Continue; rewrite map_app; simpl;
        rewrite <- app_assoc; simpl; split; reflexivity. }
    destruct (isinstance_ConnectionError e).
    { simpl. eexists (cbs ++ [_]), Return. rewrite map_app; simpl.
      rewrite <- app_assoc; simpl. split; eauto. }
    destruct (isinstance_Exception e).
    { simpl. eexists (cbs ++ [_]), Return. rewrite map_app; simpl.
      rewrite <- app_assoc; simpl. split; eauto. }
    simpl. exists cbs, (Raise e). rewrite ?app_nil_r. split; eauto.
Qed.


Lemma one_request a rq cbs :
  List.length (requests_of (waiting_events a ++ EvPost rq :: map EvIdleAdd cbs)) = 1%nat.
Proof.
  rewrite requests_of_app, requests_of_waiting. simpl. now rewrite requests_of_idle.
Qed.

(** The shape of every run: one request per attempt, callbacks after it, a
    wait before each retry, and the loop goes on exactly after a transient
    outcome. *)
Lemma make_api_request_shape w q quoted :
  quote q = inr quoted ->
  exists cbs0 cbs1 cbs2,
    trace w (_make_api_request repr q)
    = (EvPost (request_for quoted (w 0%nat)) :: map EvIdleAdd cbs0)
      ++ (if transient (env_post (w 0%nat)) then
            (waiting_events 1 ++ EvPost (request_for quoted (w 1%nat)) :: map EvIdleAdd cbs1)
            ++ (if transient (env_post (w 1%nat)) then
                  waiting_events 2 ++ EvPost (request_for quoted (w 2%nat)) :: map EvIdleAdd cbs2
                else [])
          else [])
      ++ [EvIdleAdd (cb_set_input_sensitive true)].
Proof.
  intros Hq. unfold trace, _make_api_request, try_finally.
  rewrite run_bind. cbn [seq max_retries for_each].
  rewrite run_bind.
  destruct (@attempt_iteration_run w 0 q quoted 0 Hq) as (cbs0 & c0 & E0 & H0);
    [unfold max_retries; lia|].
  rewrite E0. cbv beta iota. rewrite (one_request 0). cbn [Nat.add].
  destruct (transient (env_post (w 0%nat))).
  2:{ exists cbs0, [], [].
      destruct H0 as [-> | [e ->]]; cbn [run idle_add bind fst]; cbv beta iota;
        cbn [fst waiting_events app]; rewrite ?app_nil_r; reflexivity. }
  subst c0. rewrite run_bind.
  destruct (@attempt_iteration_run w 1 q quoted 1 Hq) as (cbs1 & c1 & E1 & H1);
    [unfold max_retries; lia|].
  rewrite E1. cbv beta iota. rewrite (one_request 1). cbn [Nat.add].
  destruct (transient (env_post (w 1%nat))).
  2:{ exists cbs0, cbs1, [].
      destruct H1 as [-> | [e ->]]; cbn [run idle_add bind fst]; cbv beta iota;
        cbn [fst]; change (waiting_events 0) with (@nil event);
        rewrite ?app_nil_r, ?app_nil_l; rewrite <- ?app_assoc; reflexivity. }
  subst c1. rewrite run_bind.
  destruct (@attempt_iteration_run w 2 q quoted 2 Hq) as (cbs2 & c2 & E2 & H2);
    [unfold max_retries; lia|].
  rewrite E2. cbv beta iota. rewrite (one_request 2). cbn [Nat.add].
  exists cbs0, cbs1, cbs2.
  assert (Hend : forall c : completion,
            run w 3 (match c with
                     | Normal | Continue => Ret Normal
                     | _ => Ret c end) = ([], match c with Normal | Continue => Normal | _ => c end)).
  { intros []; reflexivity. }
  cbn [for_each]. rewrite Hend. cbv beta iota. cbn [run idle_add bind].
  cbv beta iota. cbn [fst]. change (waiting_events 0) with (@nil event).
  rewrite app_nil_r, app_nil_l. rewrite <- !app_assoc. reflexivity.
Qed.


Lemma io_of_waiting a :
  io_of (waiting_events a)
  = match a with O => [] | S n => [IoSleep (nth n retry_delays O)] end.
Proof. destruct a; reflexivity. Qed.

Lemma transient_iteration_run w i q quoted a :
  quote q = inr quoted -> (a < max_retries)%nat ->
  transient (env_post (w i)) = true ->
  run w i (attempt_iteration repr q a)
  = (waiting_events a
     ++ [EvPost (request_for quoted (w i));
         EvIdleAdd (if (a =? 2)%nat
                    then cb_add_error_message (exhausted_notice (env_post (w i)))
                    else cb_add_system_message (retry_notice (env_post (w i)) (a + 1)))],
     Continue).
Proof.
  intros Hq Ha Ht. unfold attempt_iteration, attempt_body.
  rewrite !run_bind.
  assert (Hw : run w i (announce_retry a) = (waiting_events a, Normal)).
  { unfold max_retries in Ha. destruct a as [|[|[|a]]]; try lia; reflexivity. }
  rewrite Hw. cbv beta iota. rewrite requests_of_waiting.
  cbn [List.length Nat.add]. rewrite Nat.add_0_r.
  cbn [bind rag_get_active run]. rewrite Hq.
  cbn [bind read_api_key requests_post run]. fold (request_for quoted (w i)).
  destruct (env_post (w i)) as [e | r] eqn:Ep; cbn [transient] in Ht.
  - cbn [run]. cbv beta iota. unfold handle_exception. rewrite Ht.
    unfold max_retries in *.
    destruct a as [|[|[|a]]]; try lia; reflexivity.
  - apply Z.eqb_eq in Ht. unfold handle_response. rewrite Ht.
    unfold max_retries in *.
    destruct a as [|[|[|a]]]; try lia; reflexivity.
Qed.

(** C1. Whatever the world answers, the worker sends at most three requests,
    does not sleep before the first, sleeps 60 seconds before the second and
    120 before the third, and goes on to the next attempt exactly after a
    transient outcome (a 504 response or a [Timeout]); when all three attempts
    end that way, its last message is the error that names the three
    attempts, followed by the re-enabling of the input. *)
Theorem retry_schedule w q quoted :
  quote q = inr quoted ->
  io_of (trace w (_make_api_request repr q))
  = (if transient (env_post (w 0%nat)) then
       if transient (env_post (w 1%nat)) then
         [IoPost; IoSleep 60; IoPost; IoSleep 120; IoPost]
       else [IoPost; IoSleep 60; IoPost]
     else [IoPost])
  /\ (transient (env_post (w 0%nat)) = true ->
      transient (env_post (w 1%nat)) = true ->
      transient (env_post (w 2%nat)) = true ->
      trace w (_make_api_request repr q)
      = [EvPost (request_for quoted (w 0%nat));
         EvIdleAdd (cb_add_system_message (retry_notice (env_post (w 0%nat)) 1));
         EvIdleAdd (cb_add_system_message (lit "Attempt 2/3 - retrying in 60 seconds..."));
         EvSleep 60;
         EvIdleAdd (cb_add_system_message (lit "Retrying request to Sugar-AI..."));
         EvPost (request_for quoted (w 1%nat));
         EvIdleAdd (cb_add_system_message (retry_notice (env_post (w 1%nat)) 2));
         EvIdleAdd (cb_add_system_message (lit "Attempt 3/3 - retrying in 120 seconds..."));
         EvSleep 120;
         EvIdleAdd (cb_add_system_message (lit "Retrying request to Sugar-AI..."));
         EvPost (request_for quoted (w 2%nat));
         EvIdleAdd (cb_add_error_message (exhausted_notice (env_post (w 2%nat))));
         EvIdleAdd (cb_set_input_sensitive true)]).
Proof.
  intros Hq. split.
  - destruct (@make_api_request_shape w q quoted Hq) as (cbs0 & cbs1 & cbs2 & E).
    rewrite E. clear E.
    destruct (transient (env_post (w 0%nat))), (transient (env_post (w 1%nat)));
      repeat (rewrite ?io_of_app, ?io_of_waiting, ?io_of_idle;
              cbn [io_of app nth retry_delays]);
      reflexivity.
  - intros T0 T1 T2.
    unfold trace, _make_api_request, try_finally.
    cbn [seq max_retries for_each].
    rewrite !run_bind.
    rewrite (@transient_iteration_run w 0 q quoted 0 Hq) by (unfold max_retries; lia || assumption).
    cbv beta iota. rewrite !run_bind.
    cbn [waiting_events app requests_of List.length Nat.add].
    rewrite (@transient_iteration_run w 1 q quoted 1 Hq) by (unfold max_retries; lia || assumption).
    cbv beta iota. rewrite !run_bind.
    rewrite requests_of_app, requests_of_waiting.
    cbn [app requests_of List.length Nat.add].
    rewrite (@transient_iteration_run w 2 q quoted 2 Hq) by (unfold max_retries; lia || assumption).
    reflexivity.
Qed.


Lemma reenables_last_run {A} (p : prog A) :
  reenables_last p ->
  forall w i, exists before,
    fst (run w i p) = before ++ [EvIdleAdd (cb_set_input_sensitive true)]
    /\ untouched before = true.
Proof.
  induction 1 as [a | cb k Hcb _ IH | n k _ IH | k _ IH | k _ IH | rq k _ IH];
    intros w i; cbn [run].
  - exists []. split; reflexivity.
  - destruct (IH w i) as (before & E & Hb). destruct (run w i k) as [t c].
    cbn [fst] in *. exists (EvIdleAdd cb :: before). rewrite E. split; auto.
    cbn. rewrite Hcb. exact Hb.
  - destruct (IH w i) as (before & E & Hb). destruct (run w i k) as [t c].
    cbn [fst] in *. exists (EvSleep n :: before). rewrite E. split; auto.
  - apply IH.
  - apply IH.
  - destruct (IH (env_post (w i)) w (S i)) as (before & E & Hb).
    destruct (run w (S i) _) as [t c].
    cbn [fst] in *. exists (EvPost rq :: before). rewrite E. split; auto.
Qed.


Lemma body_raises_run w i r e :
  body_raises r e ->
  run w i (handle_success repr r) = ([], Raise e)
  /\ isinstance_Timeout e = false /\ isinstance_ConnectionError e = false
  /\ isinstance_Exception e = true.
Proof.
  intros [r0 detail Hj | r0 result e0 Hj Ha | r0 result answer quota e0 Hj Ha Hq Ht Hr];
    unfold handle_success, response_json, default_answer in *.
  - rewrite Hj. repeat split.
  - rewrite Hj, Ha. split; [reflexivity|].
    destruct result; cbn in Ha; try discriminate; inversion Ha; repeat split.
  - rewrite Hj, Ha, Hq, Ht, Hr. split; [reflexivity|].
    destruct quota; cbn in Hr; try discriminate; inversion Hr; repeat split.
Qed.

Lemma terminal_iteration_run w i q quoted a msg :
  quote q = inr quoted -> (a < max_retries)%nat ->
  terminal_outcome (env_post (w i)) msg ->
  run w i (attempt_iteration repr q a)
  = (waiting_events a
     ++ [EvPost (request_for quoted (w i)); EvIdleAdd (cb_add_error_message msg)],
     Return).
Proof.
  intros Hq Ha Ht. unfold attempt_iteration, attempt_body.
  rewrite !run_bind.
  assert (Hw : run w i (announce_retry a) = (waiting_events a, Normal)).
  { unfold max_retries in Ha. destruct a as [|[|[|a]]]; try lia; reflexivity. }
  rewrite Hw. cbv beta iota. rewrite requests_of_waiting.
  cbn [List.length Nat.add]. rewrite Nat.add_0_r.
  cbn [bind rag_get_active run]. rewrite Hq.
  cbn [bind read_api_key requests_post run]. fold (request_for quoted (w i)).
  assert (Hcases : (a = 0 \/ a = 1 \/ a = 2)%nat) by (unfold max_retries in Ha; lia).
  inversion Ht as [r Hs E | r Hs E | r Hs E | r H1 H2 H3 H4 H5 E
                   | e H1 H2 E | e H1 H2 H3 E | r e Hs Hb E]; subst msg.
  - unfold handle_response. rewrite Hs.
    destruct Hcases as [-> | [-> | ->]]; reflexivity.
  - unfold handle_response. rewrite Hs.
    destruct Hcases as [-> | [-> | ->]]; reflexivity.
  - unfold handle_response. rewrite Hs.
    destruct Hcases as [-> | [-> | ->]]; reflexivity.
  - unfold handle_response.
    apply Z.eqb_neq in H1, H2, H3, H4, H5. rewrite H1, H2, H3, H4, H5.
    destruct Hcases as [-> | [-> | ->]]; reflexivity.
  - cbn [run]. cbv beta iota. unfold handle_exception. rewrite H1, H2.
    destruct Hcases as [-> | [-> | ->]]; reflexivity.
  - cbn [run]. cbv beta iota. unfold handle_exception. rewrite H1, H2, H3.
    destruct Hcases as [-> | [-> | ->]]; reflexivity.
  - unfold handle_response. rewrite Hs. cbn [Z.eqb Pos.eqb].
    destruct (@body_raises_run w (S i) r e Hb) as (Hrun & T1 & T2 & T3).
    rewrite Hrun. cbv beta iota.
    cbn [run]. cbv beta iota. unfold handle_exception. rewrite T1, T2, T3.
    destruct Hcases as [-> | [-> | ->]]; reflexivity.
Qed.

(** An attempt that ends in [return] ends the run: what precedes it is the
    retried attempts, what follows is the re-enabling. *)
Lemma return_at_attempt w q quoted i t :
  quote q = inr quoted -> (i < max_retries)%nat ->
  (forall j, (j < i)%nat -> transient (env_post (w j)) = true) ->
  run w i (attempt_iteration repr q i) = (t, Return) ->
  trace w (_make_api_request repr q)
  = retried_events w quoted i ++ t ++ [EvIdleAdd (cb_set_input_sensitive true)].
Proof.
  intros Hq Hi Hbefore Hrun.
  unfold trace, _make_api_request, try_finally.
  cbn [seq max_retries for_each]. unfold max_retries in Hi.
  destruct i as [|[|[|i]]]; try lia.
  - rewrite !run_bind, Hrun. cbv beta iota. cbn [run idle_add bind fst].
    cbv beta iota. cbn [fst]. rewrite app_nil_r. reflexivity.
  - rewrite !run_bind.
    rewrite (@transient_iteration_run w 0 q quoted 0 Hq)
      by (unfold max_retries; lia || (apply Hbefore; lia)).
    cbv beta iota. rewrite !run_bind.
    cbn [waiting_events app requests_of List.length Nat.add].
    rewrite Hrun. cbv beta iota. cbn [run idle_add bind fst].
    cbv beta iota. cbn [fst]. rewrite app_nil_r.
    unfold retried_events. cbn [seq flat_map].
    cbn [waiting_events Nat.eqb Nat.add app]. reflexivity.
  - rewrite !run_bind.
    rewrite (@transient_iteration_run w 0 q quoted 0 Hq)
      by (unfold max_retries; lia || (apply Hbefore; lia)).
    cbv beta iota. rewrite !run_bind.
    cbn [waiting_events app requests_of List.length Nat.add].
    rewrite (@transient_iteration_run w 1 q quoted 1 Hq)
      by (unfold max_retries; lia || (apply Hbefore; lia)).
    cbv beta iota. rewrite !run_bind.
    rewrite requests_of_app, requests_of_waiting.
    cbn [app requests_of List.length Nat.add].
    rewrite Hrun. cbv beta iota. cbn [run idle_add bind fst].
    cbv beta iota. cbn [fst]. rewrite app_nil_r.
    unfold retried_events. cbn [seq flat_map].
    cbn [Nat.eqb Nat.add]. rewrite <- !app_assoc. cbn [app waiting_events].
    reflexivity.
Qed.

(** C2. When the first attempt ends in a terminal outcome (a 401, 429 or 503
    response, any status other than 200 and 504, a [ConnectionError] that is
    no [Timeout], any other [Exception], or a 200 response whose body makes
    the handler raise), the whole run is one request, one error message that
    names the cause, and the re-enabling of the input: no sleep, no second
    request. *)
Theorem terminal_outcome_ends_the_run w q quoted msg :
  quote q = inr quoted ->
  terminal_outcome (env_post (w 0%nat)) msg ->
  trace w (_make_api_request repr q)
  = [EvPost (request_for quoted (w 0%nat));
     EvIdleAdd (cb_add_error_message msg);
     EvIdleAdd (cb_set_input_sensitive true)].
Proof.
  intros Hq Ht.
  rewrite (@return_at_attempt w q quoted 0
             [EvPost (request_for quoted (w 0%nat)); EvIdleAdd (cb_add_error_message msg)]);
    auto.
  - unfold max_retries; lia.
  - intros j Hj; lia.
  - apply (@terminal_iteration_run w 0 q quoted 0 msg); auto. unfold max_retries; lia.
Qed.


Lemma success_iteration_run w i q quoted a r items :
  quote q = inr quoted -> (a < max_retries)%nat ->
  env_post (w i) = inr r -> status_code r = 200%Z ->
  json r = inr (PyDict items) -> quota_usable items = true ->
  run w i (attempt_iteration repr q a)
  = (waiting_events a
     ++ EvPost (request_for quoted (w i))
        :: map EvIdleAdd (quota_notice repr items ++ [cb_add_ai_message (answer_of items)]),
     Return).
Proof.
  intros Hq Ha Hp Hs Hj Hu. unfold attempt_iteration, attempt_body.
  rewrite !run_bind.
  assert (Hw : run w i (announce_retry a) = (waiting_events a, Normal)).
  { unfold max_retries in Ha. destruct a as [|[|[|a]]]; try lia; reflexivity. }
  rewrite Hw. cbv beta iota. rewrite requests_of_waiting.
  cbn [List.length Nat.add]. rewrite Nat.add_0_r.
  cbn [bind rag_get_active run]. rewrite Hq.
  cbn [bind read_api_key requests_post run]. rewrite Hp.
  unfold handle_response. rewrite Hs. cbn [Z.eqb Pos.eqb].
  unfold handle_success, response_json. rewrite Hj. cbn [get].
  unfold quota_notice, quota_usable, answer_of, field_or_unknown, default_answer in *.
  assert (Hcases : (a = 0 \/ a = 1 \/ a = 2)%nat) by (unfold max_retries in Ha; lia).
  destruct (lookup (lit "quota") items) as [quota|].
  - destruct quota as [| b | z | f | s0 | l | fields]; cbn [truthy] in *.
    + destruct Hcases as [-> | [-> | ->]]; reflexivity.
    + apply negb_true_iff in Hu. rewrite Hu.
      destruct Hcases as [-> | [-> | ->]]; reflexivity.
    + apply negb_true_iff in Hu. rewrite Hu.
      destruct Hcases as [-> | [-> | ->]]; reflexivity.
    + destruct f; try discriminate Hu.
      destruct Hcases as [-> | [-> | ->]]; reflexivity.
    + apply negb_true_iff in Hu. rewrite Hu.
      destruct Hcases as [-> | [-> | ->]]; reflexivity.
    + destruct l; try discriminate Hu.
      destruct Hcases as [-> | [-> | ->]]; reflexivity.
    + destruct fields as [|field fields];
        destruct Hcases as [-> | [-> | ->]]; reflexivity.
  - destruct Hcases as [-> | [-> | ->]]; reflexivity.
Qed.


(** C9. When an attempt returns 200 and [response.json()] raises because the
    body is not JSON, the worker queues one error message, "Unexpected error:"
    followed by the decoder's message, sends no further request, and queues
    the re-enabling of the input.  It is the only error message of the run. *)
Theorem invalid_json_ends_the_run w q quoted i r detail :
  quote q = inr quoted -> (i < max_retries)%nat ->
  (forall j, (j < i)%nat -> transient (env_post (w j)) = true) ->
  env_post (w i) = inr r -> status_code r = 200%Z -> json r = inl detail ->
  trace w (_make_api_request repr q)
  = retried_events w quoted i
    ++ waiting_events i
    ++ [EvPost (request_for quoted (w i));
        EvIdleAdd (cb_add_error_message (lit "Unexpected error: " ++ detail));
        EvIdleAdd (cb_set_input_sensitive true)]
  /\ List.length (filter is_error (callbacks_of (trace w (_make_api_request repr q)))) = 1%nat.
Proof.
  intros Hq Hi Hbefore Hp Hs Hj.
  assert (Ht : terminal_outcome (env_post (w i)) (lit "Unexpected error: " ++ detail)).
  { rewrite Hp. apply (@terminal_body r (mk_exn JSONDecodeError detail) Hs).
    constructor. exact Hj. }
  assert (E : trace w (_make_api_request repr q)
  = retried_events w quoted i
    ++ waiting_events i
    ++ [EvPost (request_for quoted (w i));
        EvIdleAdd (cb_add_error_message (lit "Unexpected error: " ++ detail));
        EvIdleAdd (cb_set_input_sensitive true)]).
  { rewrite (@return_at_attempt w q quoted i _ Hq Hi Hbefore
               (@terminal_iteration_run w i q quoted i _ Hq Hi Ht)).
    rewrite <- !app_assoc. reflexivity. }
  split; [exact E|]. rewrite E.
  unfold max_retries in Hi. unfold retried_events.
  destruct i as [|[|[|i]]]; try lia; reflexivity.
Qed.


Lemma requests_of_make_api_request w q quoted :
  quote q = inr quoted ->
  requests_of (trace w (_make_api_request repr q))
  = map (fun i => request_for quoted (w i)) (seq 0 (attempts_made w)).
Proof.
  intros Hq. destruct (@make_api_request_shape w q quoted Hq) as (cbs0 & cbs1 & cbs2 & E).
  rewrite E. clear E. unfold attempts_made.
  destruct (transient (env_post (w 0%nat))), (transient (env_post (w 1%nat)));
    repeat (rewrite ?requests_of_app, ?requests_of_waiting, ?requests_of_idle;
            cbn [requests_of app]);
    reflexivity.
Qed.

(** C5, as the code has it.  The question is fixed when the worker starts;
    the toggle and the key are read again by every attempt, so the request of
    attempt [i] carries the endpoint and the key in force when attempt [i]
    reads them.  When neither changes during the run, every attempt uses the
    same endpoint and the same key. *)
Theorem mode_and_key_read_per_attempt w q quoted :
  quote q = inr quoted ->
  requests_of (trace w (_make_api_request repr q))
  = map (fun i => request_for quoted (w i)) (seq 0 (attempts_made w))
  /\ ((forall i, env_rag_active (w i) = env_rag_active (w 0%nat)
                /\ env_api_key (w i) = env_api_key (w 0%nat)) ->
      Forall (fun rq => rq = request_for quoted (w 0%nat))
             (requests_of (trace w (_make_api_request repr q)))).
Proof.
  intros Hq. rewrite (@requests_of_make_api_request w q quoted Hq).
  split; [reflexivity|]. intros Hsame.
  apply Forall_forall. intros rq Hin. apply in_map_iff in Hin.
  destruct Hin as (i & <- & _). unfold request_for.
  destruct (Hsame i) as [-> ->]. reflexivity.
Qed.

(** C3. Whatever the world answers (success, terminal error, three transient
    outcomes, an exception the handlers do not catch, a question that cannot
    be encoded), the worker queues [_set_input_sensitive(True)] exactly once,
    as the last thing it does, and queues no other [_set_input_sensitive]. *)
Theorem input_reenabled_exactly_once w q :
  exists before,
    trace w (_make_api_request repr q)
    = before ++ [EvIdleAdd (cb_set_input_sensitive true)]
    /\ untouched before = true.
Proof.
  apply reenables_last_run. apply make_api_request_reenables_last.
Qed.

Lemma Forall2_map_seq {A} (P : A -> nat -> Prop) (f : nat -> A) l :
  (forall i, P (f i) i) -> Forall2 P (map f l) l.
Proof. intros H. induction l; cbn; constructor; auto. Qed.

(** The arguments of every [requests.post] of a run: the base URL followed
    by [/ask] when the RAG toggle is on and [/ask-llm] when it is off, one
    entry in [params], [question], whose value is [quote(question)], the key
    in the [X-API-Key] header, and a timeout of 300 seconds. *)
Lemma request_wire_format w q quoted :
  quote q = inr quoted ->
  Forall2
    (fun rq i =>
       url rq = _api_base_url
                ++ (if env_rag_active (w i) then lit "/ask" else lit "/ask-llm")
       /\ params rq = [(lit "question", quoted)]
       /\ headers rq = [(lit "X-API-Key", env_api_key (w i))]
       /\ timeout rq = 300%Z)
    (requests_of (trace w (_make_api_request repr q)))
    (seq 0 (attempts_made w))
  /\ exists bytes,
       utf8_encode q = Some bytes
       /\ quoted = quote_from_bytes bytes
       /\ unquote_to_bytes quoted = bytes.
Proof.
  intros Hq. split.
  - rewrite (@requests_of_make_api_request w q quoted Hq).
    apply Forall2_map_seq. intros i. repeat split.
  - apply quote_decodes. exact Hq.
Qed.

End Facts.

(** ** The activity and its threads *)

Lemma reenables_last_in_flight p : reenables_last p -> in_flight p = true.
Proof. destruct 1; reflexivity. Qed.

Section System.
Variable repr : value -> str.

Lemma restore_entry_is_requesting a e :
  _is_requesting (restore_entry repr a e) = _is_requesting a.
Proof.
  unfold restore_entry.
  destruct (str_eqb _ _); [reflexivity|]. destruct (str_eqb _ _); reflexivity.
Qed.

Lemma read_file_is_requesting data a :
  _is_requesting (read_file repr data a) = _is_requesting a.
Proof.
  unfold read_file.
  set (a0 := with_chat_buffer _ _).
  change (_is_requesting a) with (_is_requesting a0).
  generalize a0. clear a0.
  induction (session_conversation_history data) as [|e l IH]; intros a0; cbn [fold_left].
  - reflexivity.
  - rewrite IH. apply restore_entry_is_requesting.
Qed.

Lemma pending_replace a q before after (p k : prog completion) :
  in_flight p = in_flight k ->
  pending (mk_system a q (before ++ k :: after))
  = pending (mk_system a q (before ++ p :: after)).
Proof.
  intros E. unfold pending. cbn [threads idle_queue].
  rewrite !filter_app, !length_app. cbn [filter]. rewrite E.
  destruct (in_flight k); reflexivity.
Qed.

Lemma guarded_worker_step a q before after (p k : prog completion) :
  reenables_last k ->
  guarded (mk_system a q (before ++ p :: after)) -> in_flight p = true ->
  guarded (mk_system a q (before ++ k :: after)).
Proof.
  intros Hk (Hok & Hle & Hreq) Hp.
  assert (E : in_flight p = in_flight k)
    by (rewrite Hp; symmetry; apply reenables_last_in_flight, Hk).
  unfold guarded. rewrite (@pending_replace a q before after p k E).
  cbn [threads ui] in *. repeat split; auto.
  apply Forall_app in Hok. destruct Hok as [Hb Ha]. inversion Ha; subst.
  apply Forall_app. split; auto. constructor; auto. left; exact Hk.
Qed.

Lemma reachable_guarded s : reachable repr s -> guarded s.
Proof.
  induction 1 as [key | s th act s' _ IH Hstep].
  - repeat split; cbn; auto.
  - inversion Hstep; subst; clear Hstep.
    + exact IH.
    + unfold _on_ask_clicked.
      destruct (negb (str_bool (strip (question_entry_text a)))).
      { cbn [fst snd spawned]. rewrite app_nil_r. exact IH. }
      destruct (negb (str_bool (_api_key a))).
      { cbn [fst snd spawned]. rewrite app_nil_r. exact IH. }
      destruct (_is_requesting a) eqn:Er.
      { cbn [fst snd spawned]. rewrite app_nil_r. exact IH. }
      destruct IH as (Hok & Hle & Hreq). cbn [threads idle_queue ui] in *.
      specialize (Hreq Er).
      cbn [fst snd spawned]. unfold guarded, pending in *.
      cbn [threads idle_queue ui] in *.
      rewrite filter_app, length_app. cbn.
      repeat split.
      * apply Forall_app. split; auto. constructor; [|constructor].
        left. apply make_api_request_reenables_last.
      * lia.
      * discriminate.
    + exact IH.
    + exact IH.
    + exact IH.
    + destruct IH as (Hok & Hle & Hreq). repeat split; auto.
      cbn [ui] in *. rewrite read_file_is_requesting. exact Hreq.
    + destruct IH as (Hok & Hle & Hreq). unfold guarded, pending in *.
      cbn [threads idle_queue ui filter] in *.
      destruct cb; cbn [touches_input run_callback] in *;
        repeat split; auto; cbn in *; lia.
    + (* idle_add *)
      destruct IH as (Hok & Hle & Hreq).
      pose proof Hok as Hok'. cbn [threads] in Hok'.
      apply Forall_app in Hok'. destruct Hok' as [Hb Ha]. inversion Ha as [|? ? Hp Hafter]; subst.
      destruct Hp as [Hp | Hp]; [|discriminate Hp].
      unfold guarded, pending in *. cbn [threads idle_queue ui] in *.
      rewrite !filter_app, !length_app in *. cbn [filter in_flight List.length] in *.
      inversion Hp; subst.
      * cbn [touches_input in_flight filter List.length] in *.
        repeat split.
        -- apply Forall_app. split; auto. constructor; auto. right; reflexivity.
        -- lia.
        -- intros Hf. specialize (Hreq Hf). lia.
      * match goal with H : touches_input cb = false |- _ => rewrite H end.
        match goal with H : reenables_last k |- _ =>
          rewrite (@reenables_last_in_flight _ H); pose proof H as Hk end.
        cbn [filter List.length] in *.
        repeat split.
        -- apply Forall_app. split; auto. constructor; auto. left; exact Hk.
        -- lia.
        -- intros Hf. specialize (Hreq Hf). lia.
    + destruct IH as (Hok & Hle & Hreq).
      pose proof Hok as Hok'. cbn [threads] in Hok'.
      apply Forall_app in Hok'. destruct Hok' as [_ Ha]. inversion Ha as [|? ? Hp _]; subst.
      destruct Hp as [Hp | Hp]; [|discriminate Hp].
      apply guarded_worker_step with (p := Sleep n k); auto.
      * inversion Hp; assumption.
      * repeat split; auto.
    + destruct IH as (Hok & Hle & Hreq).
      pose proof Hok as Hok'. cbn [threads] in Hok'.
      apply Forall_app in Hok'. destruct Hok' as [_ Ha]. inversion Ha as [|? ? Hp _]; subst.
      destruct Hp as [Hp | Hp]; [|discriminate Hp].
      apply guarded_worker_step with (p := RagGetActive k); auto.
      * inversion Hp; auto.
      * repeat split; auto.
    + destruct IH as (Hok & Hle & Hreq).
      pose proof Hok as Hok'. cbn [threads] in Hok'.
      apply Forall_app in Hok'. destruct Hok' as [_ Ha]. inversion Ha as [|? ? Hp _]; subst.
      destruct Hp as [Hp | Hp]; [|discriminate Hp].
      apply guarded_worker_step with (p := ReadApiKey k); auto.
      * inversion Hp; auto.
      * repeat split; auto.
    + destruct IH as (Hok & Hle & Hreq).
      pose proof Hok as Hok'. cbn [threads] in Hok'.
      apply Forall_app in Hok'. destruct Hok' as [_ Ha]. inversion Ha as [|? ? Hp _]; subst.
      destruct Hp as [Hp | Hp]; [|discriminate Hp].
      apply guarded_worker_step with (p := RequestsPost rq k); auto.
      * inversion Hp; auto.
      * repeat split; auto.
    + destruct IH as (Hok & Hle & Hreq).
      unfold guarded, pending in *. cbn [threads idle_queue ui] in *.
      rewrite !filter_app, !length_app in *. cbn [filter in_flight List.length] in *.
      repeat split; auto.
      apply Forall_app in Hok. destruct Hok as [Hb Ha]. inversion Ha; subst.
      apply Forall_app. split; auto.
Qed.


(** C6. [_on_ask_clicked] checks the trimmed question, the key and
    [_is_requesting] in the handler itself: when one of the checks fails it
    starts no thread (and queues nothing), otherwise it starts exactly the
    worker for the trimmed question and raises [_is_requesting]; and in every
    state the activity can reach, at most one worker is under way. *)
Theorem one_request_at_a_time :
  (forall a, request_refused a = true ->
     snd (_on_ask_clicked repr a) = None
     /\ _is_requesting (fst (_on_ask_clicked repr a)) = _is_requesting a
     /\ chat_buffer (fst (_on_ask_clicked repr a)) = chat_buffer a)
  /\ (forall a q ts s',
        request_refused a = true ->
        step repr (mk_system a q ts) MainThread ActAskClicked s' ->
        threads s' = ts /\ idle_queue s' = q)
  /\ (forall a, request_refused a = false ->
        snd (_on_ask_clicked repr a)
        = Some (_make_api_request repr (strip (question_entry_text a)))
        /\ _is_requesting (fst (_on_ask_clicked repr a)) = true)
  /\ (forall s, reachable repr s ->
        (List.length (filter in_flight (threads s)) <= 1)%nat).
Proof.
  assert (Hrefused : forall a, request_refused a = true ->
     snd (_on_ask_clicked repr a) = None
     /\ _is_requesting (fst (_on_ask_clicked repr a)) = _is_requesting a
     /\ chat_buffer (fst (_on_ask_clicked repr a)) = chat_buffer a).
  { intros a. unfold request_refused, _on_ask_clicked.
    destruct (negb (str_bool (strip (question_entry_text a)))); [repeat split|].
    destruct (negb (str_bool (_api_key a))); [repeat split|].
    destruct (_is_requesting a) eqn:Er; [repeat split; cbn; auto | cbn; discriminate]. }
  split; [exact Hrefused|]. split; [|split].
  - intros a q ts s' Hr Hstep. inversion Hstep; subst. cbn [threads idle_queue].
    destruct (Hrefused a Hr) as (-> & _). split; [apply app_nil_r | reflexivity].
  - intros a Hr. unfold request_refused, _on_ask_clicked in *.
    destruct (negb (str_bool (strip (question_entry_text a)))); [cbn in *; discriminate|].
    destruct (negb (str_bool (_api_key a))); [cbn in *; discriminate|].
    destruct (_is_requesting a); [cbn in *; discriminate | split; reflexivity].
  - intros s Hs. destruct (reachable_guarded Hs) as (_ & Hle & _).
    unfold pending in Hle. lia.
Qed.

End System.

(** ** Strings *)

Lemma str_eqb_eq a b : str_eqb a b = true <-> a = b.
Proof.
  revert b. induction a as [|x a IH]; intros [|y b]; cbn; split; try congruence; auto.
  - intros H. apply andb_true_iff in H. destruct H as [Hx Ha].
    apply N.eqb_eq in Hx. apply IH in Ha. congruence.
  - intros [= -> ->]. rewrite N.eqb_refl. apply IH. reflexivity.
Qed.

Lemma split_not_nil sep s : split sep s <> [].
Proof.
  destruct s as [|c s]; cbn; [discriminate|].
  destruct (N.eqb c sep); [discriminate|]. destruct (split sep s); discriminate.
Qed.

Lemma split_at_separator sep x y :
  split sep (x ++ sep :: y) = split sep x ++ split sep y.
Proof.
  induction x as [|c x IH]; cbn [app split].
  - rewrite N.eqb_refl. reflexivity.
  - destruct (N.eqb c sep); rewrite IH; [reflexivity|].
    destruct (split sep x) as [|piece pieces] eqn:E; [|reflexivity].
    exfalso. exact (@split_not_nil _ _ E).
Qed.

Lemma split_prefix sep h s :
  Forall (fun c => c <> sep) h ->
  split sep (h ++ s) = (h ++ hd [] (split sep s)) :: tl (split sep s).
Proof.
  induction 1 as [|c h Hc _ IH]; cbn [app].
  - destruct (split sep s) eqn:E; [|reflexivity].
    exfalso. exact (@split_not_nil _ _ E).
  - cbn [split]. apply N.eqb_neq in Hc. rewrite Hc, IH. reflexivity.
Qed.

Lemma split_join sep s :
  s = hd [] (split sep s) ++ List.concat (map (cons sep) (tl (split sep s))).
Proof.
  induction s as [|c s IH]; [reflexivity|]. cbn [split].
  destruct (split sep s) as [|p ps] eqn:E.
  { exfalso. exact (@split_not_nil _ _ E). }
  cbn [hd tl] in IH.
  destruct (N.eqb_spec c sep) as [-> | Hc]; cbn [hd tl map List.concat app];
    f_equal; exact IH.
Qed.

Lemma lstrip_length s : (List.length (lstrip s) <= List.length s)%nat.
Proof.
  induction s as [|c s IH]; cbn; auto. destruct (isspace c); cbn; lia.
Qed.

Lemma lstrip_fixed s :
  List.length (lstrip s) = List.length s -> lstrip s = s.
Proof.
  destruct s as [|c s]; cbn; auto.
  destruct (isspace c); auto. pose proof (lstrip_length s). lia.
Qed.

Lemma rstrip_length s : (List.length (rstrip s) <= List.length s)%nat.
Proof.
  unfold rstrip. rewrite length_rev. pose proof (lstrip_length (rev s)).
  rewrite length_rev in *. assumption.
Qed.

Lemma strip_fixed s : strip s = s -> lstrip s = s /\ rstrip s = s.
Proof.
  unfold strip. intros E.
  assert (H : lstrip s = s).
  { apply lstrip_fixed. pose proof (rstrip_length (lstrip s)).
    pose proof (lstrip_length s). rewrite E in *. lia. }
  rewrite H in E. auto.
Qed.

Lemma lstrip_app_nonspace s t :
  s <> [] -> lstrip s = s -> lstrip (s ++ t) = s ++ t.
Proof.
  destruct s as [|c s]; [congruence|]. intros _. cbn.
  destruct (isspace c) eqn:E; [|reflexivity].
  intros H. pose proof (lstrip_length s).
  apply (f_equal (@List.length N)) in H. cbn in H. lia.
Qed.

Lemma lstrip_spaces ws s :
  forallb isspace ws = true -> lstrip (ws ++ s) = lstrip s.
Proof.
  induction ws as [|c ws IH]; cbn; auto. intros H.
  apply andb_true_iff in H. destruct H as [-> H]. auto.
Qed.

Lemma strip_trailing_spaces m ws :
  m <> [] -> strip m = m -> forallb isspace ws = true -> strip (m ++ ws) = m.
Proof.
  intros Hm E Hws. destruct (@strip_fixed m E) as [Hl Hr].
  unfold strip. rewrite (@lstrip_app_nonspace m ws Hm Hl).
  unfold rstrip in *. rewrite rev_app_distr, lstrip_spaces; auto.
  rewrite forallb_forall in *. intros c Hc. apply Hws. apply in_rev. exact Hc.
Qed.

(** ** The parser of [write_file] *)

(** Lines that carry on the message being read. *)
Lemma parse_continuation lines : forall st,
  forallb (fun line => negb (is_header line)) lines = true ->
  current_message st <> [] ->
  fold_left parse_line lines st
  = mk_parse_state (conversation st)
      (current_message st ++ List.concat (map (cons newline) lines))
      (current_type st).
Proof.
  induction lines as [|line lines IH]; intros st Hl Hm; cbn [fold_left map List.concat].
  - rewrite app_nil_r. destruct st; reflexivity.
  - cbn [forallb] in Hl. apply andb_true_iff in Hl. destruct Hl as [Hh Hl].
    unfold is_header in Hh. apply negb_true_iff, orb_false_iff in Hh.
    destruct Hh as [Hu Ha].
    assert (E : parse_line st line
                = mk_parse_state (conversation st)
                    (current_message st ++ [newline] ++ line) (current_type st)).
    { unfold parse_line. rewrite Hu, Ha.
      destruct (current_message st); [congruence | reflexivity]. }
    rewrite E, IH; auto.
    + cbn [conversation current_message current_type]. rewrite <- app_assoc. reflexivity.
    + cbn [current_message]. destruct (current_message st); [congruence | discriminate].
Qed.

Lemma no_newline_in_user_header : Forall (fun c => c <> newline) (lit "You: ").
Proof. repeat constructor; discriminate. Qed.

Lemma no_newline_in_ai_header : Forall (fun c => c <> newline) (lit "Sugar-AI: ").
Proof. repeat constructor; discriminate. Qed.

Lemma startswith_app p s : startswith p (p ++ s) = true.
Proof. induction p as [|c p IH]; cbn; auto. rewrite N.eqb_refl. exact IH. Qed.

Lemma skipn_app_exact (p s : str) : skipn (List.length p) (p ++ s) = s.
Proof. induction p; cbn; auto. Qed.

Lemma plain_message_first_line m :
  plain_message m = true ->
  m <> [] /\ strip m = m /\ hd [] (split newline m) <> []
  /\ forallb (fun line => negb (is_header line)) (tl (split newline m)) = true.
Proof.
  unfold plain_message. intros H.
  apply andb_true_iff in H. destruct H as [H Hlines].
  apply andb_true_iff in H. destruct H as [Hne Hs].
  apply str_eqb_eq in Hs.
  assert (Hm : m <> []) by (destruct m; [discriminate | congruence]).
  repeat split; auto.
  destruct (@strip_fixed _ Hs) as [Hl _].
  destruct m as [|c m]; [congruence|]. cbn [lstrip] in Hl.
  destruct (isspace c) eqn:Ec.
  { pose proof (lstrip_length m). apply (f_equal (@List.length N)) in Hl. cbn in Hl. lia. }
  cbn [split]. destruct (N.eqb_spec c newline) as [-> | Hc]; [discriminate Ec|].
  destruct (split newline m); discriminate.
Qed.

(** Reading the lines of one entry. *)
Lemma parse_rendered e rest st :
  storable e = true ->
  fold_left parse_line (split newline (rendered e ++ rest)) st
  = fold_left parse_line (split newline rest)
      (mk_parse_state (flush st) (entry_message e ++ [newline])
         (Some (entry_type e))).
Proof.
  unfold storable. intros H. apply andb_true_iff in H. destruct H as [Hty Hplain].
  destruct (@plain_message_first_line _ Hplain) as (Hm & Hs & H0 & Hlines).
  set (m := entry_message e) in *.
  assert (Hsplit : forall header,
    Forall (fun c => c <> newline) header ->
    split newline ((header ++ m ++ blank_line) ++ rest)
    = (header ++ hd [] (split newline m)) :: tl (split newline m)
      ++ [] :: split newline rest).
  { intros header Hh. unfold blank_line.
    replace ((header ++ m ++ [newline; newline]) ++ rest)
      with ((header ++ m) ++ newline :: newline :: rest)
      by (rewrite <- !app_assoc; reflexivity).
    rewrite split_at_separator, (@split_prefix newline header m Hh).
    cbn [split]. rewrite N.eqb_refl. reflexivity. }
  assert (Hrest : forall st0,
    current_message st0 = hd [] (split newline m) ->
    fold_left parse_line (tl (split newline m) ++ [] :: split newline rest) st0
    = fold_left parse_line (split newline rest)
        (mk_parse_state (conversation st0) (m ++ [newline]) (current_type st0))).
  { intros st0 E0. rewrite fold_left_app.
    rewrite (@parse_continuation (tl (split newline m)) st0);
      auto; [|rewrite E0; exact H0].
    rewrite E0, <- split_join. cbn [fold_left]. f_equal.
    unfold parse_line. cbn [startswith lit]. cbn.
    destruct m; [congruence | reflexivity]. }
  unfold rendered. fold m.
  destruct (str_eqb (entry_type e) (lit "user")) eqn:Eu.
  - apply str_eqb_eq in Eu. rewrite Eu.
    rewrite (Hsplit _ no_newline_in_user_header). cbn [fold_left].
    assert (E1 : parse_line st (lit "You: " ++ hd [] (split newline m))
                 = mk_parse_state (flush st) (hd [] (split newline m)) (Some (lit "user"))).
    { unfold parse_line. rewrite startswith_app. unfold slice_from.
      rewrite (skipn_app_exact (lit "You: ")). reflexivity. }
    rewrite E1. apply Hrest. reflexivity.
  - cbn [orb] in Hty. rewrite Hty. apply str_eqb_eq in Hty. rewrite Hty.
    rewrite (Hsplit _ no_newline_in_ai_header). cbn [fold_left].
    assert (E1 : parse_line st (lit "Sugar-AI: " ++ hd [] (split newline m))
                 = mk_parse_state (flush st) (hd [] (split newline m)) (Some (lit "ai"))).
    { unfold parse_line. rewrite startswith_app.
      replace (startswith (lit "You: ") (lit "Sugar-AI: " ++ hd [] (split newline m)))
        with false by reflexivity.
      unfold slice_from. rewrite (skipn_app_exact (lit "Sugar-AI: ")). reflexivity. }
    rewrite E1. apply Hrest. reflexivity.
Qed.

Lemma flush_settled conv e :
  storable e = true ->
  flush (mk_parse_state conv (entry_message e ++ [newline]) (Some (entry_type e)))
  = conv ++ [e].
Proof.
  intros He. pose proof He as H. unfold storable in H.
  apply andb_true_iff in H. destruct H as [Hty Hplain].
  destruct (@plain_message_first_line _ Hplain) as (Hm & Hs & _ & _).
  unfold flush. cbn [current_type current_message conversation].
  rewrite (@strip_trailing_spaces (entry_message e) [newline] Hm Hs eq_refl).
  assert (Hb : str_bool (entry_message e ++ [newline]) = true)
    by (destruct (entry_message e); reflexivity).
  assert (Ht : str_bool (entry_type e) = true).
  { apply orb_true_iff in Hty. destruct Hty as [E | E]; apply str_eqb_eq in E;
      rewrite E; reflexivity. }
  rewrite Hb, Ht. destruct e; reflexivity.
Qed.

Lemma parse_rendered_history history : forall st,
  forallb storable history = true -> settled st ->
  flush (fold_left parse_line (split newline (flat_map rendered history)) st)
  = flush st ++ history.
Proof.
  induction history as [|e history IH]; intros st Hall Hst.
  - cbn [flat_map split fold_left]. rewrite app_nil_r.
    destruct Hst as [E | (e & He & Em & Et)].
    + unfold parse_line. cbn [startswith lit]. cbn. rewrite E. reflexivity.
    + assert (Ep : parse_line st []
                   = mk_parse_state (conversation st)
                       (entry_message e ++ [newline; newline]) (current_type st)).
      { unfold parse_line. cbn [startswith lit]. cbn. rewrite Em.
        destruct (entry_message e); cbn; rewrite <- ?app_assoc; reflexivity. }
      rewrite Ep.
      pose proof He as H. unfold storable in H.
      apply andb_true_iff in H. destruct H as [Hty Hplain].
      destruct (@plain_message_first_line _ Hplain) as (Hm & Hs & _ & _).
      unfold flush. cbn [current_type current_message conversation].
      rewrite Em, Et.
      rewrite (@strip_trailing_spaces (entry_message e) [newline; newline] Hm Hs eq_refl).
      rewrite (@strip_trailing_spaces (entry_message e) [newline] Hm Hs eq_refl).
      destruct (entry_message e) as [|c m]; [congruence | reflexivity].
  - cbn [forallb] in Hall. apply andb_true_iff in Hall. destruct Hall as [He Hall].
    cbn [flat_map]. rewrite (@parse_rendered e _ st He).
    rewrite IH; auto.
    + rewrite (@flush_settled _ e He), <- app_assoc. reflexivity.
    + right. exists e. auto.
Qed.

Section Session.
Variable repr : value -> str.

Lemma restore_entry_fields a e :
  chat_buffer (restore_entry repr a e) = chat_buffer a ++ rendered e
  /\ _api_key (restore_entry repr a e) = _api_key a
  /\ _conversation_history (restore_entry repr a e) = _conversation_history a.
Proof.
  unfold restore_entry, rendered.
  destruct (str_eqb (entry_type e) (lit "user")); [repeat split|].
  destruct (str_eqb (entry_type e) (lit "ai")); [repeat split|].
  rewrite app_nil_r. repeat split.
Qed.

Lemma restore_entries_fields history : forall a,
  chat_buffer (fold_left (restore_entry repr) history a)
  = chat_buffer a ++ flat_map rendered history
  /\ _api_key (fold_left (restore_entry repr) history a) = _api_key a
  /\ _conversation_history (fold_left (restore_entry repr) history a)
     = _conversation_history a.
Proof.
  induction history as [|e history IH]; intros a; cbn [fold_left flat_map].
  - rewrite app_nil_r. repeat split.
  - destruct (IH (restore_entry repr a e)) as (Hb & Hk & Hh).
    destruct (restore_entry_fields a e) as (Hb' & Hk' & Hh').
    rewrite Hb, Hk, Hh, Hb', Hk', Hh', <- app_assoc. repeat split.
Qed.

(** C8, as the code has it.  A conversation whose entries are of type
    [user] or [ai] and whose messages are not empty, carry no white space at
    either end and have no line after the first starting with "You: " or
    "Sugar-AI: ", once shown in the chat buffer, is written by [write_file]
    and read back by [read_file] as the same sequence of entries. *)
Theorem session_round_trip key history a a' :
  forallb storable history = true ->
  write_file (read_file repr (mk_session key history) a) = mk_session key history
  /\ _conversation_history
       (read_file repr (write_file (read_file repr (mk_session key history) a)) a')
     = history.
Proof.
  intros Hall.
  assert (E : write_file (read_file repr (mk_session key history) a)
              = mk_session key history).
  { unfold write_file, read_file. cbn [session_api_key session_conversation_history].
    match goal with |- context [fold_left _ _ ?a0] =>
      destruct (restore_entries_fields history a0) as (Hb & Hk & _) end.
    rewrite Hb, Hk. cbn [chat_buffer _api_key with_chat_buffer app].
    unfold parse_conversation.
    rewrite (@parse_rendered_history history (mk_parse_state [] [] None) Hall);
      [reflexivity | left; reflexivity]. }
  split; [exact E|]. rewrite E.
  unfold read_file. cbn [session_api_key session_conversation_history].
  match goal with |- context [fold_left _ _ ?a0] =>
    destruct (restore_entries_fields history a0) as (_ & _ & Hh) end.
  rewrite Hh. reflexivity.
Qed.

End Session.

(** ** The scenarios of the specification, run *)

Lemma before_the_first_attempt (P : nat -> Prop) :
  forall j, (j < 0)%nat -> P j.
Proof. intros j Hj. exfalso. exact (Nat.nlt_0_r j Hj). Defined.

(** Scenario D: three timeouts. *)
Lemma retry_schedule_three_timeouts :
  io_of (trace (steady read_timeout) (_make_api_request any_repr loop_question))
  = [IoPost; IoSleep 60; IoPost; IoSleep 120; IoPost]
  /\ callbacks_of (trace (steady read_timeout) (_make_api_request any_repr loop_question))
     = [cb_add_system_message (lit "Request timed out on attempt 1. Will retry...");
        cb_add_system_message (lit "Attempt 2/3 - retrying in 60 seconds...");
        cb_add_system_message (lit "Retrying request to Sugar-AI...");
        cb_add_system_message (lit "Request timed out on attempt 2. Will retry...");
        cb_add_system_message (lit "Attempt 3/3 - retrying in 120 seconds...");
        cb_add_system_message (lit "Retrying request to Sugar-AI...");
        cb_add_error_message (lit "Request timed out after 5 minutes on 3 attempts. The Sugar-AI service may be experiencing high load. Please try again later.");
        cb_set_input_sensitive true].
Proof.
  destruct (@retry_schedule any_repr (steady read_timeout) loop_question
              loop_question_quoted eq_refl) as [Hio Htrace].
  split; [exact Hio|].
  rewrite (Htrace eq_refl eq_refl eq_refl). reflexivity.
Defined.

(** Scenario C: a 401 on the first attempt. *)
Lemma terminal_outcome_unauthorized :
  trace (steady unauthorized) (_make_api_request any_repr loop_question)
  = [EvPost (request_for loop_question_quoted (steady unauthorized 0%nat));
     EvIdleAdd (cb_add_error_message
                  (lit "Invalid API key. Please check your configuration."));
     EvIdleAdd (cb_set_input_sensitive true)].
Proof.
  apply (@terminal_outcome_ends_the_run any_repr (steady unauthorized)
           loop_question loop_question_quoted).
  - reflexivity.
  - apply terminal_401. reflexivity.
Defined.


(** Scenario B: two 504 responses, then the answer. *)
Example third_attempt_succeeds :
  trace third_time_lucky (_make_api_request any_repr loop_question)
  = [EvPost (request_for loop_question_quoted (third_time_lucky 0%nat));
     EvIdleAdd (cb_add_system_message (lit "Server timeout (504) on attempt 1. Will retry..."));
     EvIdleAdd (cb_add_system_message (lit "Attempt 2/3 - retrying in 60 seconds..."));
     EvSleep 60;
     EvIdleAdd (cb_add_system_message (lit "Retrying request to Sugar-AI..."));
     EvPost (request_for loop_question_quoted (third_time_lucky 1%nat));
     EvIdleAdd (cb_add_system_message (lit "Server timeout (504) on attempt 2. Will retry..."));
     EvIdleAdd (cb_add_system_message (lit "Attempt 3/3 - retrying in 120 seconds..."));
     EvSleep 120;
     EvIdleAdd (cb_add_system_message (lit "Retrying request to Sugar-AI..."));
     EvPost (request_for loop_question_quoted (third_time_lucky 2%nat));
     EvIdleAdd (cb_add_ai_message (PyStr (lit "ok")));
     EvIdleAdd (cb_set_input_sensitive true)].
Proof. vm_compute. reflexivity. Qed.


Lemma invalid_json_first_attempt :
  trace (steady html_page) (_make_api_request any_repr loop_question)
  = [EvPost (request_for loop_question_quoted (steady html_page 0%nat));
     EvIdleAdd (cb_add_error_message
                  (lit "Unexpected error: Expecting value: line 1 column 1 (char 0)"));
     EvIdleAdd (cb_set_input_sensitive true)].
Proof.
  pose proof (@invalid_json_ends_the_run any_repr (steady html_page) loop_question
                loop_question_quoted 0
                (mk_response 200 (lit "<html>Bad gateway</html>")
                   (inl (lit "Expecting value: line 1 column 1 (char 0)")))
                (lit "Expecting value: line 1 column 1 (char 0)")
                eq_refl (Nat.lt_0_succ 2) (before_the_first_attempt _)
                eq_refl eq_refl eq_refl) as [Htrace _].
  exact Htrace.
Defined.

(** One run, two endpoints and two keys: the toggle and the key are read by
    each attempt. *)
Lemma mode_and_key_change_during_a_run :
  map url (requests_of (trace changed_while_waiting
                          (_make_api_request any_repr loop_question)))
  = [lit "https://ai.sugarlabs.org/ask";
     lit "https://ai.sugarlabs.org/ask-llm";
     lit "https://ai.sugarlabs.org/ask-llm"]
  /\ map headers (requests_of (trace changed_while_waiting
                                 (_make_api_request any_repr loop_question)))
     = [[(lit "X-API-Key", lit "old-key")];
        [(lit "X-API-Key", lit "new-key")];
        [(lit "X-API-Key", lit "new-key")]].
Proof. split; vm_compute; reflexivity. Qed.

Lemma mode_and_key_steady_world :
  Forall (fun rq => rq = request_for loop_question_quoted (steady gateway_timeout 0%nat))
         (requests_of (trace (steady gateway_timeout)
                         (_make_api_request any_repr loop_question))).
Proof.
  destruct (@mode_and_key_read_per_attempt any_repr (steady gateway_timeout)
              loop_question loop_question_quoted eq_refl) as [_ Hsame].
  apply Hsame. intros i. split; reflexivity.
Defined.

Lemma request_wire_format_loop_question :
  quote loop_question = inr (lit "What%20is%20a%20loop%3F")
  /\ Forall2
       (fun rq i =>
          url rq = _api_base_url
                   ++ (if env_rag_active (steady loop_answer i)
                       then lit "/ask" else lit "/ask-llm")
          /\ params rq = [(lit "question", lit "What%20is%20a%20loop%3F")]
          /\ headers rq = [(lit "X-API-Key", env_api_key (steady loop_answer i))]
          /\ timeout rq = 300%Z)
       (requests_of (trace (steady loop_answer)
                       (_make_api_request any_repr loop_question)))
       (seq 0 (attempts_made (steady loop_answer)))
  /\ exists bytes,
       utf8_encode loop_question = Some bytes
       /\ lit "What%20is%20a%20loop%3F" = quote_from_bytes bytes
       /\ unquote_to_bytes (lit "What%20is%20a%20loop%3F") = bytes.
Proof.
  split; [reflexivity|].
  apply (@request_wire_format any_repr (steady loop_answer) loop_question
           (lit "What%20is%20a%20loop%3F")).
  reflexivity.
Defined.

(** The session file gives back a tidy conversation, but not one with white
    space at the end of a message or with a line that looks like an entry. *)
Lemma session_round_trip_tidy_history :
  write_file (read_file any_repr (mk_session (lit "secret") tidy_history)
                        (initial_activity []))
  = mk_session (lit "secret") tidy_history.
Proof.
  apply (@session_round_trip any_repr (lit "secret") tidy_history
           (initial_activity []) (initial_activity [])).
  reflexivity.
Defined.

Lemma session_round_trip_loses_text :
  session_conversation_history
    (write_file (read_file any_repr (mk_session (lit "secret") indented_history)
                           (initial_activity [])))
  = [mk_entry (lit "user") (lit "hi"); mk_entry (lit "ai") (lit "ok")]
  /\ session_conversation_history
       (write_file (read_file any_repr (mk_session (lit "secret") indented_history)
                              (initial_activity [])))
     <> indented_history
  /\ session_conversation_history
       (write_file (read_file any_repr (mk_session (lit "secret") quoting_history)
                              (initial_activity [])))
     = [mk_entry (lit "user") (lit "hi"); mk_entry (lit "ai") (lit "Type");
        mk_entry (lit "user") (lit "hi")].
Proof.
  repeat split; try (vm_compute; reflexivity). vm_compute. discriminate.
Qed.

(** A click with a question and a key starts one worker; a second click
    while it runs starts none; and the state after the first click, which the
    activity reaches from its initial state, has that one worker under way. *)
Lemma one_request_second_click :
  snd (_on_ask_clicked any_repr ready_to_ask)
  = Some (_make_api_request any_repr loop_question)
  /\ snd (_on_ask_clicked any_repr
            (with_question_entry_text (lit "And a list?")
               (fst (_on_ask_clicked any_repr ready_to_ask))))
     = None
  /\ (List.length
        (filter in_flight
           (threads (mk_system (fst (_on_ask_clicked any_repr ready_to_ask)) []
                               [_make_api_request any_repr loop_question])))
      <= 1)%nat.
Proof.
  destruct (one_request_at_a_time any_repr) as (Hrefused & _ & Haccepted & Hone).
  split; [|split].
  - apply (Haccepted ready_to_ask). reflexivity.
  - apply Hrefused. reflexivity.
  - apply Hone.
    apply (@reachable_step any_repr
             (mk_system ready_to_ask [] []) MainThread ActAskClicked).
    + apply (@reachable_step any_repr
               (initial_system (lit "secret")) MainThread
               (ActEntryChanged (lit " What is a loop? "))).
      * apply reachable_initial.
      * apply step_entry_changed.
    + apply (step_ask_clicked any_repr ready_to_ask [] []).
Defined.

(** * More facts *)

(** ** Every run ends with a report *)

Section More.
Variable repr : value -> str.

Lemma terminal_trace_at w q quoted i msg :
  quote q = inr quoted -> (i < max_retries)%nat ->
  (forall j, (j < i)%nat -> transient (env_post (w j)) = true) ->
  terminal_outcome (env_post (w i)) msg ->
  trace w (_make_api_request repr q)
  = retried_events w quoted i
    ++ waiting_events i
    ++ [EvPost (request_for quoted (w i));
        EvIdleAdd (cb_add_error_message msg);
        EvIdleAdd (cb_set_input_sensitive true)].
Proof.
  intros Hq Hi Hbefore Ht.
  rewrite (@return_at_attempt repr w q quoted i _ Hq Hi Hbefore
             (@terminal_iteration_run repr w i q quoted i _ Hq Hi Ht)).
  rewrite <- !app_assoc. reflexivity.
Qed.

Lemma success_trace_at w q quoted i r items :
  quote q = inr quoted -> (i < max_retries)%nat ->
  (forall j, (j < i)%nat -> transient (env_post (w j)) = true) ->
  env_post (w i) = inr r -> status_code r = 200%Z ->
  json r = inr (PyDict items) -> quota_usable items = true ->
  trace w (_make_api_request repr q)
  = retried_events w quoted i
    ++ waiting_events i
    ++ EvPost (request_for quoted (w i))
       :: map EvIdleAdd
            (quota_notice repr items
             ++ [cb_add_ai_message (answer_of items); cb_set_input_sensitive true]).
Proof.
  intros Hq Hi Hbefore Hp Hs Hj Hu.
  rewrite (@return_at_attempt repr w q quoted i _ Hq Hi Hbefore
             (@success_iteration_run repr w i q quoted i r items Hq Hi Hp Hs Hj Hu)).
  rewrite <- !app_assoc. cbn [app]. rewrite !map_app. cbn [map].
  rewrite <- !app_assoc. reflexivity.
Qed.

Lemma exhausted_trace w q quoted :
  quote q = inr quoted ->
  transient (env_post (w 0%nat)) = true ->
  transient (env_post (w 1%nat)) = true ->
  transient (env_post (w 2%nat)) = true ->
  trace w (_make_api_request repr q)
  = retried_events w quoted 2
    ++ waiting_events 2
    ++ [EvPost (request_for quoted (w 2%nat));
        EvIdleAdd (cb_add_error_message (exhausted_notice (env_post (w 2%nat))));
        EvIdleAdd (cb_set_input_sensitive true)].
Proof.
  intros Hq T0 T1 T2.
  unfold trace, _make_api_request, try_finally.
  cbn [seq max_retries for_each].
  rewrite !run_bind.
  rewrite (@transient_iteration_run repr w 0 q quoted 0 Hq) by (unfold max_retries; lia || assumption).
  cbv beta iota. rewrite !run_bind.
  cbn [waiting_events app requests_of List.length Nat.add].
  rewrite (@transient_iteration_run repr w 1 q quoted 1 Hq) by (unfold max_retries; lia || assumption).
  cbv beta iota. rewrite !run_bind.
  rewrite requests_of_app, requests_of_waiting.
  cbn [app requests_of List.length Nat.add].
  rewrite (@transient_iteration_run repr w 2 q quoted 2 Hq) by (unfold max_retries; lia || assumption).
  reflexivity.
Qed.

Lemma unencodable_trace w q e :
  quote q = inl e ->
  trace w (_make_api_request repr q)
  = [EvIdleAdd (cb_add_error_message (lit "Unexpected error: " ++ exn_str e));
     EvIdleAdd (cb_set_input_sensitive true)].
Proof.
  intros Hq.
  assert (He : exn_type e = UnicodeEncodeError).
  { unfold quote in Hq. destruct (utf8_encode q); [discriminate|].
    injection Hq as <-. reflexivity. }
  unfold trace, _make_api_request, try_finally.
  cbn [seq max_retries for_each].
  rewrite !run_bind. unfold attempt_iteration at 1. rewrite run_bind.
  unfold attempt_body at 1. rewrite run_bind.
  cbn [announce_retry Nat.ltb Nat.leb run]. cbv beta iota.
  cbn [bind rag_get_active run]. rewrite Hq. cbn [run]. cbv beta iota.
  unfold handle_exception, isinstance_Timeout, isinstance_ConnectionError,
    isinstance_Exception. rewrite He. reflexivity.
Qed.


Lemma retried_has_no_report w quoted i rq extra :
  (i < max_retries)%nat ->
  forallb (fun cb => negb (is_report cb)) extra = true ->
  forallb (fun cb => negb (is_report cb))
    (callbacks_of (retried_events w quoted i ++ waiting_events i
                   ++ EvPost rq :: map EvIdleAdd extra)) = true.
Proof.
  intros Hi Hextra. unfold max_retries in Hi.
  assert (Hc : forall l, callbacks_of (map EvIdleAdd l) = l)
    by (induction l; cbn; congruence).
  destruct i as [|[|[|i]]]; try lia; unfold retried_events;
    cbn [seq flat_map waiting_events app callbacks_of forallb is_report
         is_answer is_error orb negb andb];
    rewrite Hc; exact Hextra.
Qed.

Lemma quota_notice_is_no_report items :
  forallb (fun cb => negb (is_report cb)) (quota_notice repr items) = true.
Proof.
  unfold quota_notice.
  destruct (lookup (lit "quota") items) as [[| | | | | |[|f fs]]|]; reflexivity.
Qed.

(** What an attempt that is not retried leaves behind. *)
Lemma settled_attempt_reports w q quoted i :
  quote q = inr quoted -> catchable w -> (i < max_retries)%nat ->
  (forall j, (j < i)%nat -> transient (env_post (w j)) = true) ->
  transient (env_post (w i)) = false ->
  exists before final,
    trace w (_make_api_request repr q)
    = before ++ [EvIdleAdd final; EvIdleAdd (cb_set_input_sensitive true)]
    /\ is_report final = true
    /\ forallb (fun cb => negb (is_report cb)) (callbacks_of before) = true.
Proof.
  intros Hq Hw Hi Hbefore Hnt.
  destruct (every_outcome_is_classified (env_post (w i)))
    as [Ht | [(msg & Ht) | [(r & items & Hp & Hs & Hj & Hu) | (e & Hp & He)]]].
  - congruence.
  - exists (retried_events w quoted i ++ waiting_events i
            ++ EvPost (request_for quoted (w i)) :: map EvIdleAdd []),
           (cb_add_error_message msg).
    split; [|split].
    + rewrite (@terminal_trace_at w q quoted i msg Hq Hi Hbefore Ht).
      rewrite <- !app_assoc. reflexivity.
    + reflexivity.
    + apply retried_has_no_report; auto.
  - exists (retried_events w quoted i ++ waiting_events i
            ++ EvPost (request_for quoted (w i))
               :: map EvIdleAdd (quota_notice repr items)),
           (cb_add_ai_message (answer_of items)).
    split; [|split].
    + rewrite (@success_trace_at w q quoted i r items Hq Hi Hbefore Hp Hs Hj Hu).
      rewrite map_app. cbn [map]. rewrite <- !app_assoc. cbn [app].
      rewrite <- ?app_assoc. reflexivity.
    + reflexivity.
    + apply retried_has_no_report; auto. apply quota_notice_is_no_report.
  - rewrite (Hw i e Hp) in He. discriminate.
Qed.

(** X1. Whatever [requests.post] returns or raises within [Exception], and
    whatever the question, a run of [_make_api_request] ends with one report
    to the user, the answer or an error message, followed by the re-enabling
    of the input; nothing queued before it is an answer or an error
    message. *)
Theorem every_run_reports w q :
  catchable w ->
  exists before final,
    trace w (_make_api_request repr q)
    = before ++ [EvIdleAdd final; EvIdleAdd (cb_set_input_sensitive true)]
    /\ is_report final = true
    /\ forallb (fun cb => negb (is_report cb)) (callbacks_of before) = true.
Proof.
  intros Hw. destruct (quote q) as [e | quoted] eqn:Hq.
  { exists [], (cb_add_error_message (lit "Unexpected error: " ++ exn_str e)).
    rewrite (@unencodable_trace w q e Hq). repeat split. }
  assert (H3 : forall j, (j < 0)%nat -> transient (env_post (w j)) = true)
    by (intros j Hj; lia).
  destruct (transient (env_post (w 0%nat))) eqn:T0.
  2:{ apply (@settled_attempt_reports w q quoted 0); auto; unfold max_retries; lia. }
  assert (H1 : forall j, (j < 1)%nat -> transient (env_post (w j)) = true).
  { intros j Hj. replace j with 0%nat by lia. exact T0. }
  destruct (transient (env_post (w 1%nat))) eqn:T1.
  2:{ apply (@settled_attempt_reports w q quoted 1); auto; unfold max_retries; lia. }
  assert (H2 : forall j, (j < 2)%nat -> transient (env_post (w j)) = true).
  { intros j Hj. destruct j as [|[|j]]; try lia; assumption. }
  destruct (transient (env_post (w 2%nat))) eqn:T2.
  2:{ apply (@settled_attempt_reports w q quoted 2); auto; unfold max_retries; lia. }
  exists (retried_events w quoted 2 ++ waiting_events 2
          ++ EvPost (request_for quoted (w 2%nat)) :: map EvIdleAdd []),
         (cb_add_error_message (exhausted_notice (env_post (w 2%nat)))).
  split; [|split].
  - rewrite (@exhausted_trace w q quoted Hq T0 T1 T2).
    rewrite <- !app_assoc. reflexivity.
  - reflexivity.
  - apply retried_has_no_report; auto; unfold max_retries; lia.
Qed.

(** X2. A terminal outcome at any attempt, after transient failures at all
    the attempts before it, ends the run there: the retries so far, the wait
    of this attempt, its request, one error message that names the cause and
    the re-enabling of the input; no further attempt is made. *)
Theorem terminal_outcome_at_any_attempt w q quoted i msg :
  quote q = inr quoted -> (i < max_retries)%nat ->
  (forall j, (j < i)%nat -> transient (env_post (w j)) = true) ->
  terminal_outcome (env_post (w i)) msg ->
  trace w (_make_api_request repr q)
  = retried_events w quoted i
    ++ waiting_events i
    ++ [EvPost (request_for quoted (w i));
        EvIdleAdd (cb_add_error_message msg);
        EvIdleAdd (cb_set_input_sensitive true)].
Proof.
  intros Hq Hi Hbefore Ht.
  pose proof (@terminal_iteration_run repr w i q quoted i _ Hq Hi Ht) as Hrun.
  rewrite (@return_at_attempt repr w q quoted i _ Hq Hi Hbefore Hrun).
  rewrite <- !app_assoc. reflexivity.
Qed.

(** X3. A question [quote] cannot encode (it holds a lone surrogate) makes
    the first attempt raise before any request is built: the run is one
    error message, "Unexpected error: " and the text of the
    [UnicodeEncodeError], and the re-enabling of the input; nothing is sent
    and nothing is retried. *)
Theorem unencodable_question_sends_nothing w q e :
  quote q = inl e ->
  trace w (_make_api_request repr q)
  = [EvIdleAdd (cb_add_error_message (lit "Unexpected error: " ++ exn_str e));
     EvIdleAdd (cb_set_input_sensitive true)]
  /\ requests_of (trace w (_make_api_request repr q)) = [].
Proof.
  intros Hq. rewrite (@unencodable_trace w q e Hq). split; reflexivity.
Qed.

End More.

(** ** The widgets and the flag *)

Lemma callbacks_of_app t1 t2 :
  callbacks_of (t1 ++ t2) = callbacks_of t1 ++ callbacks_of t2.
Proof. induction t1 as [|[] t1 IH]; cbn; auto. now rewrite IH. Qed.

Section MoreSystem.
Variable repr : value -> str.

Lemma run_callback_frame cb a :
  _api_key (run_callback repr cb a) = _api_key a
  /\ _conversation_history (run_callback repr cb a) = _conversation_history a
  /\ exists added, chat_buffer (run_callback repr cb a) = chat_buffer a ++ added.
Proof.
  destruct cb; cbn; repeat split; eauto. exists []. now rewrite app_nil_r.
Qed.

Lemma dispatch_all_frame cbs : forall a,
  _api_key (dispatch_all repr cbs a) = _api_key a
  /\ _conversation_history (dispatch_all repr cbs a) = _conversation_history a
  /\ exists added, chat_buffer (dispatch_all repr cbs a) = chat_buffer a ++ added.
Proof.
  unfold dispatch_all.
  induction cbs as [|cb cbs IH]; intros a; cbn [fold_left].
  - repeat split. exists []. now rewrite app_nil_r.
  - destruct (IH (run_callback repr cb a)) as (Hk & Hh & added & Hb).
    destruct (run_callback_frame cb a) as (Hk' & Hh' & added' & Hb').
    rewrite Hk, Hh, Hb, Hk', Hh', Hb'. repeat split.
    exists (added' ++ added). now rewrite app_assoc.
Qed.

(** X4. Once the main loop has run all the callbacks a run of
    [_make_api_request] has queued, in their order, no request is in
    progress, the entry and the button are sensitive and the button reads
    "Ask", whatever the activity was before; the API key and the saved
    history are as they were, and the chat buffer has only grown. *)
Theorem run_leaves_input_enabled w q a :
  _is_requesting (dispatch_all repr (callbacks_of (trace w (_make_api_request repr q))) a)
  = false
  /\ question_entry_sensitive
       (dispatch_all repr (callbacks_of (trace w (_make_api_request repr q))) a) = true
  /\ ask_button_sensitive
       (dispatch_all repr (callbacks_of (trace w (_make_api_request repr q))) a) = true
  /\ ask_button_label
       (dispatch_all repr (callbacks_of (trace w (_make_api_request repr q))) a) = lit "Ask"
  /\ _api_key (dispatch_all repr (callbacks_of (trace w (_make_api_request repr q))) a)
     = _api_key a
  /\ _conversation_history
       (dispatch_all repr (callbacks_of (trace w (_make_api_request repr q))) a)
     = _conversation_history a
  /\ exists added,
       chat_buffer (dispatch_all repr (callbacks_of (trace w (_make_api_request repr q))) a)
       = chat_buffer a ++ added.
Proof.
  destruct (dispatch_all_frame (callbacks_of (trace w (_make_api_request repr q))) a)
    as (Hk & Hh & Hb).
  destruct (@reenables_last_run _ (_make_api_request repr q)
              (make_api_request_reenables_last repr q) w 0%nat) as (before & E & _).
  fold (trace w (_make_api_request repr q)) in E.
  repeat split; auto; rewrite E, callbacks_of_app; unfold dispatch_all;
    rewrite fold_left_app; reflexivity.
Qed.

Lemma restore_entry_widgets a e :
  _is_requesting (restore_entry repr a e) = _is_requesting a
  /\ question_entry_sensitive (restore_entry repr a e) = question_entry_sensitive a
  /\ ask_button_sensitive (restore_entry repr a e) = ask_button_sensitive a
  /\ ask_button_label (restore_entry repr a e) = ask_button_label a.
Proof.
  unfold restore_entry.
  destruct (str_eqb _ _); [repeat split|]. destruct (str_eqb _ _); repeat split.
Qed.

Lemma read_file_consistent data a : consistent a -> consistent (read_file repr data a).
Proof.
  unfold read_file. set (a0 := with_chat_buffer _ _).
  intros Ha. assert (H0 : consistent a0) by exact Ha. clearbody a0. clear Ha.
  revert a0 H0.
  induction (session_conversation_history data) as [|e l IH]; intros a0 H0; cbn [fold_left].
  - exact H0.
  - apply IH. destruct (restore_entry_widgets a0 e) as (E1 & E2 & E3 & E4).
    unfold consistent. rewrite E1, E2, E3, E4. exact H0.
Qed.

(** X5. In every state the activity reaches, the entry and the Ask button
    are sensitive exactly when [_is_requesting] is false, and the button
    reads "Thinking..." while it is true and "Ask" otherwise. *)
Theorem widgets_follow_the_flag s : reachable repr s -> consistent (ui s).
Proof.
  induction 1 as [key | s th act s' _ IH Hstep].
  - repeat split.
  - inversion Hstep; subst; clear Hstep; cbn [ui] in *; try exact IH.
    + unfold _on_ask_clicked.
      destruct (negb (str_bool (strip (question_entry_text a)))); [exact IH|].
      destruct (negb (str_bool (_api_key a))); [exact IH|].
      destruct (_is_requesting a); [exact IH | repeat split].
    + apply read_file_consistent. exact IH.
    + destruct cb as [m | m | m | []]; try exact IH; repeat split.
Qed.

(** X7. No step other than Clear and the loading of a session changes
    [_conversation_history] or removes text from the chat buffer, and no step
    other than the saving of the key dialog and the loading of a session
    changes the API key: asking, the callbacks of the worker and the worker
    itself only append to the chat buffer. *)
Theorem chatting_only_appends s th act s' :
  step repr s th act s' ->
  (replaces_transcript act = false ->
     _conversation_history (ui s') = _conversation_history (ui s)
     /\ exists added, chat_buffer (ui s') = chat_buffer (ui s) ++ added)
  /\ (sets_api_key act = false -> _api_key (ui s') = _api_key (ui s)).
Proof.
  assert (Hnil : forall t : str, exists added, t = t ++ added).
  { intros t. exists []. now rewrite app_nil_r. }
  intros Hstep.
  inversion Hstep; subst; cbn [ui replaces_transcript sets_api_key];
    (split; [intros Hr; try discriminate Hr | intros Hk; try discriminate Hk]);
    try (split; [reflexivity | apply Hnil]); try reflexivity.
  - unfold _on_ask_clicked.
    destruct (negb (str_bool (strip (question_entry_text a)))); [split; [reflexivity | apply Hnil]|].
    destruct (negb (str_bool (_api_key a))); [split; [reflexivity | apply Hnil]|].
    destruct (_is_requesting a); [split; [reflexivity | apply Hnil]|].
    split; [reflexivity|]. cbn. rewrite <- app_assoc. eauto.
  - unfold _on_ask_clicked.
    destruct (negb (str_bool (strip (question_entry_text a)))); [reflexivity|].
    destruct (negb (str_bool (_api_key a))); [reflexivity|].
    destruct (_is_requesting a); reflexivity.
  - destruct (run_callback_frame cb a) as (_ & Hh & Hb). split; assumption.
  - destruct (run_callback_frame cb a) as (Hk' & _). assumption.
Qed.

End MoreSystem.

(** ** More on [strip] *)

Lemma lstrip_decompose s :
  exists ws, s = ws ++ lstrip s /\ forallb isspace ws = true.
Proof.
  induction s as [|c s (ws & E & Hws)]; cbn [lstrip].
  - exists []. split; reflexivity.
  - destruct (isspace c) eqn:Ec.
    + exists (c :: ws). cbn. rewrite Ec, Hws. split; [congruence | reflexivity].
    + exists []. split; reflexivity.
Qed.

Lemma lstrip_head s :
  match lstrip s with [] => True | c :: _ => isspace c = false end.
Proof.
  induction s as [|c s IH]; cbn [lstrip]; auto.
  destruct (isspace c) eqn:Ec; auto.
Qed.

Lemma lstrip_idempotent s : lstrip (lstrip s) = lstrip s.
Proof.
  pose proof (lstrip_head s) as H. destruct (lstrip s) as [|c r]; [reflexivity|].
  cbn. now rewrite H.
Qed.

Lemma strip_idempotent s : strip (strip s) = strip s.
Proof.
  unfold strip. set (t := lstrip s).
  assert (Hr : rstrip (rstrip t) = rstrip t).
  { unfold rstrip. rewrite rev_involutive, lstrip_idempotent. reflexivity. }
  assert (Hl : lstrip (rstrip t) = rstrip t).
  { destruct (lstrip_decompose (rev t)) as (ws & E & _).
    apply (f_equal (@rev N)) in E. rewrite rev_involutive, rev_app_distr in E.
    fold (rstrip t) in E.
    destruct (rstrip t) as [|c u] eqn:Eu; [reflexivity|].
    pose proof (lstrip_head s) as Hh. fold t in Hh. rewrite E in Hh. cbn in Hh.
    cbn. now rewrite Hh. }
  rewrite Hl. exact Hr.
Qed.

(** ** What [write_file] saves, whatever the chat buffer holds *)

Lemma flush_saved st :
  Forall saved_entry (conversation st) -> well_typed (current_type st) ->
  Forall saved_entry (flush st).
Proof.
  intros Hc Ht. unfold flush.
  destruct (current_type st) as [ty|]; [|exact Hc].
  destruct (str_bool (current_message st) && str_bool ty); [|exact Hc].
  apply Forall_app. split; [exact Hc|]. constructor; [|constructor].
  split; cbn.
  - destruct Ht as [Ht | [Ht | Ht]]; [discriminate | |]; injection Ht as ->; auto.
  - apply strip_idempotent.
Qed.

Lemma parse_line_saved st line :
  Forall saved_entry (conversation st) -> well_typed (current_type st) ->
  Forall saved_entry (conversation (parse_line st line))
  /\ well_typed (current_type (parse_line st line)).
Proof.
  intros Hc Ht. unfold parse_line.
  destruct (startswith (lit "You: ") line).
  { split; [apply flush_saved; assumption | right; left; reflexivity]. }
  destruct (startswith (lit "Sugar-AI: ") line).
  { split; [apply flush_saved; assumption | right; right; reflexivity]. }
  destruct (str_bool (current_message st)); split; assumption.
Qed.

Lemma parse_lines_saved lines : forall st,
  Forall saved_entry (conversation st) -> well_typed (current_type st) ->
  Forall saved_entry (conversation (fold_left parse_line lines st))
  /\ well_typed (current_type (fold_left parse_line lines st)).
Proof.
  induction lines as [|line lines IH]; intros st Hc Ht; cbn [fold_left]; auto.
  destruct (@parse_line_saved st line Hc Ht) as [Hc' Ht']. apply IH; assumption.
Qed.

(** X8. Whatever the chat buffer holds, every entry [write_file] saves has
    type "user" or "ai" and a message without white space at either end, and
    the key it saves is the key of the activity. *)
Theorem write_file_saves_stripped_entries a :
  Forall (fun e => (entry_type e = lit "user" \/ entry_type e = lit "ai")
                   /\ strip (entry_message e) = entry_message e)
         (session_conversation_history (write_file a))
  /\ session_api_key (write_file a) = _api_key a.
Proof.
  split; [|reflexivity].
  unfold write_file, parse_conversation. cbn [session_conversation_history].
  destruct (@parse_lines_saved (split newline (chat_buffer a))
              (mk_parse_state [] [] None)) as [Hc Ht].
  - constructor.
  - left; reflexivity.
  - apply flush_saved; assumption.
Qed.

(** ** Text before the first entry *)

Lemma parse_ignored lines : forall st,
  forallb (fun line => negb (is_header line)) lines = true ->
  current_message st = [] ->
  fold_left parse_line lines st = st.
Proof.
  induction lines as [|line lines IH]; intros st Hl Hm; cbn [fold_left]; auto.
  cbn [forallb] in Hl. apply andb_true_iff in Hl. destruct Hl as [Hh Hl].
  unfold is_header in Hh. apply negb_true_iff, orb_false_iff in Hh.
  destruct Hh as [Hu Ha].
  assert (E : parse_line st line = st).
  { unfold parse_line. rewrite Hu, Ha, Hm. reflexivity. }
  rewrite E. apply IH; assumption.
Qed.

(** X9. The lines of the chat buffer before the first line that starts with
    "You: " or "Sugar-AI: " (the notice of Clear, system and error messages
    shown on an empty buffer) are not saved: [write_file] saves what it
    parses from the text after them. *)
Theorem write_file_skips_leading_notices a notices text :
  chat_buffer a = notices ++ [newline] ++ text ->
  forallb (fun line => negb (is_header line)) (split newline notices) = true ->
  session_conversation_history (write_file a) = parse_conversation text.
Proof.
  intros Hb Hn. unfold write_file. cbn [session_conversation_history].
  rewrite Hb. unfold parse_conversation. cbn [app].
  rewrite split_at_separator, fold_left_app.
  rewrite (@parse_ignored (split newline notices) (mk_parse_state [] [] None) Hn eq_refl).
  reflexivity.
Qed.

(** ** Notices inside a message *)

Lemma rstrip_app_nonspace s t :
  t <> [] -> rstrip t = t -> rstrip (s ++ t) = s ++ t.
Proof.
  intros Ht Hr. unfold rstrip in *. rewrite rev_app_distr.
  assert (Hrev : lstrip (rev t) = rev t).
  { apply (f_equal (@rev N)) in Hr. now rewrite rev_involutive in Hr. }
  rewrite lstrip_app_nonspace; auto.
  - now rewrite <- rev_app_distr, rev_involutive.
  - intros E. apply (f_equal (@rev N)) in E. rewrite rev_involutive in E. auto.
Qed.

Lemma split_hd_tl sep s : split sep s = hd [] (split sep s) :: tl (split sep s).
Proof.
  destruct (split sep s) eqn:E; [|reflexivity]. exfalso. exact (@split_not_nil _ _ E).
Qed.

(** A notice in brackets after a message makes a longer message of the same
    kind. *)
Lemma plain_message_with_notice m notice :
  plain_message m = true ->
  forallb (fun line => negb (is_header line))
          (split newline (lit "[" ++ notice ++ lit "]")) = true ->
  plain_message (m ++ blank_line ++ lit "[" ++ notice ++ lit "]") = true.
Proof.
  intros Hm Hn.
  destruct (@plain_message_first_line m Hm) as (Hne & Hs & _ & Hlines).
  destruct (@strip_fixed m Hs) as [Hl Hr].
  unfold plain_message. apply andb_true_iff. split; [apply andb_true_iff; split|].
  - destruct m; [congruence | reflexivity].
  - apply str_eqb_eq. unfold strip.
    rewrite (@lstrip_app_nonspace m _ Hne Hl).
    replace (m ++ blank_line ++ lit "[" ++ notice ++ lit "]")
      with ((m ++ blank_line ++ lit "[" ++ notice) ++ lit "]")
      by (rewrite <- !app_assoc; reflexivity).
    apply rstrip_app_nonspace; [discriminate | reflexivity].
  - unfold blank_line. cbn [app].
    rewrite split_at_separator. rewrite (split_hd_tl newline m). cbn [app tl].
    rewrite forallb_app. apply andb_true_iff. split; [exact Hlines|].
    cbn [split]. rewrite N.eqb_refl. cbn [forallb].
    apply andb_true_iff. split; [reflexivity | exact Hn].
Qed.

Lemma thinking_notice_lines :
  forallb (fun line => negb (is_header line))
          (split newline (lit "[" ++ thinking_notice ++ lit "]")) = true.
Proof. vm_compute. reflexivity. Qed.

Lemma flat_map_rendered_shown history :
  flat_map rendered history = flat_map rendered (filter shown history).
Proof.
  induction history as [|e history IH]; [reflexivity|]. cbn [flat_map filter].
  unfold shown at 1, rendered at 1.
  destruct (str_eqb (entry_type e) (lit "user")) eqn:Eu.
  - cbn [orb flat_map]. unfold rendered at 2. rewrite Eu, IH. reflexivity.
  - destruct (str_eqb (entry_type e) (lit "ai")) eqn:Ea.
    + cbn [orb flat_map]. unfold rendered at 2. rewrite Eu, Ea, IH. reflexivity.
    + cbn [orb app]. exact IH.
Qed.

Section MoreSession.
Variable repr : value -> str.

(** X11. A session saved after a question has been answered holds the
    question with the notice of [_on_ask_clicked] in it: the notice
    "[Sugar-AI is thinking... ...]" is shown between the question and the
    answer, and the parser of [write_file] takes it for the rest of the
    question. *)
Theorem thinking_notice_is_saved_with_the_question history a answer :
  forallb storable history = true ->
  chat_buffer a = flat_map rendered history ->
  request_refused a = false ->
  plain_message (strip (question_entry_text a)) = true ->
  plain_message answer = true ->
  session_conversation_history
    (write_file
       (run_callback repr (cb_add_ai_message (PyStr answer))
          (fst (_on_ask_clicked repr a))))
  = history
    ++ [mk_entry (lit "user")
          (strip (question_entry_text a) ++ blank_line
           ++ lit "[" ++ thinking_notice ++ lit "]");
        mk_entry (lit "ai") answer].
Proof.
  intros Hall Hb Hr Hq Ha.
  set (q := strip (question_entry_text a)) in *.
  assert (Hbuf : chat_buffer (run_callback repr (cb_add_ai_message (PyStr answer))
                                (fst (_on_ask_clicked repr a)))
                 = flat_map rendered
                     (history
                      ++ [mk_entry (lit "user")
                            (q ++ blank_line ++ lit "[" ++ thinking_notice ++ lit "]");
                          mk_entry (lit "ai") answer])).
  { unfold request_refused, _on_ask_clicked in *. fold q in Hr |- *.
    destruct (negb (str_bool q)); [cbn in Hr; discriminate|].
    destruct (negb (str_bool (_api_key a))); [cbn in Hr; discriminate|].
    destruct (_is_requesting a); [cbn in Hr; discriminate|].
    cbn [fst run_callback]. unfold _add_ai_message, _set_input_sensitive,
      _add_system_message, _add_user_message, insert_at_end.
    cbn [chat_buffer with_chat_buffer with_question_entry_text py_str].
    rewrite Hb, flat_map_app. cbn [flat_map]. unfold rendered.
    cbn [entry_type entry_message].
    replace (str_eqb (lit "user") (lit "user")) with true by reflexivity.
    replace (str_eqb (lit "ai") (lit "user")) with false by reflexivity.
    replace (str_eqb (lit "ai") (lit "ai")) with true by reflexivity.
    unfold thinking_notice. rewrite app_nil_r, <- !app_assoc. reflexivity. }
  unfold write_file. cbn [session_conversation_history]. rewrite Hbuf.
  unfold parse_conversation.
  rewrite parse_rendered_history; [reflexivity | | left; reflexivity].
  rewrite forallb_app, Hall. cbn [forallb andb].
  unfold storable. cbn [entry_type entry_message].
  rewrite (@plain_message_with_notice q thinking_notice Hq thinking_notice_lines), Ha.
  reflexivity.
Qed.


End MoreSession.

(** ** The configuration file *)

(** X13. The key [_save_api_key] has written is the key [_load_api_key]
    reads, whatever the file held before; for the key of the dialog that is
    the text of its entry, stripped.  A save stopped by [os.makedirs] or
    [open] changes nothing of what is loaded; a save stopped while writing
    leaves a file that cannot be read.  Whenever the directory or the file
    is missing, the file cannot be read or does not hold an object, the
    activity keeps the key it has; an object without [api_key] gives the
    empty key. *)
Theorem saved_key_is_loaded_again :
  (forall key d current,
      _load_api_key (_save_api_key Saved key d) current = key)
  /\ (forall key_text a d current,
        _load_api_key
          (_save_api_key Saved (PyStr (_api_key (_on_save_clicked key_text a))) d)
          current
        = PyStr (strip key_text))
  /\ (forall o key d current,
        o = MakedirsFails \/ o = OpenFails -> disk_ok d ->
        _load_api_key (_save_api_key o key d) current = _load_api_key d current)
  /\ (forall key d current,
        _load_api_key (_save_api_key WriteFails key d) current = current)
  /\ (forall d current,
        data_dir_exists d = false \/ config_json d = NoFile
        \/ config_json d = Unreadable
        \/ (exists v, config_json d = Holds v /\ forall items, v <> PyDict items) ->
        _load_api_key d current = current)
  /\ (forall d current items,
        data_dir_exists d = true -> config_json d = Holds (PyDict items) ->
        lookup (lit "api_key") items = None ->
        _load_api_key d current = PyStr []).
Proof.
  repeat split.
  - intros o key d current [-> | ->] Hd; [reflexivity|].
    unfold _load_api_key, _save_api_key. cbn [data_dir_exists config_json].
    destruct (data_dir_exists d) eqn:E; [reflexivity|]. rewrite (Hd E). reflexivity.
  - intros d current [H | [H | [H | (v & H & Hv)]]]; unfold _load_api_key.
    + rewrite H. reflexivity.
    + rewrite H. destruct (data_dir_exists d); reflexivity.
    + rewrite H. destruct (data_dir_exists d); reflexivity.
    + rewrite H. destruct (data_dir_exists d); [|reflexivity].
      destruct v; try reflexivity. exfalso. exact (Hv _ eq_refl).
  - intros d current items Hd Hc Hl. unfold _load_api_key.
    rewrite Hd, Hc. cbn [get]. rewrite Hl. reflexivity.
Qed.


(** ** More scenarios, run *)

(** Three read timeouts: the report is the last message but one. *)
Lemma every_run_reports_three_timeouts :
  catchable (steady read_timeout)
  /\ exists before final,
       trace (steady read_timeout) (_make_api_request any_repr loop_question)
       = before ++ [EvIdleAdd final; EvIdleAdd (cb_set_input_sensitive true)]
       /\ is_report final = true
       /\ forallb (fun cb => negb (is_report cb)) (callbacks_of before) = true.
Proof.
  assert (H : catchable (steady read_timeout)).
  { intros i e E. injection E as <-. reflexivity. }
  split; [exact H|].
  exact (@every_run_reports any_repr (steady read_timeout) loop_question H).
Defined.

(** A 504, then a 401: the run ends at the second attempt. *)
Lemma terminal_outcome_on_the_second_attempt :
  io_of (trace unauthorized_on_retry (_make_api_request any_repr loop_question))
  = [IoPost; IoSleep 60; IoPost]
  /\ callbacks_of (trace unauthorized_on_retry (_make_api_request any_repr loop_question))
     = [cb_add_system_message (lit "Server timeout (504) on attempt 1. Will retry...");
        cb_add_system_message (lit "Attempt 2/3 - retrying in 60 seconds...");
        cb_add_system_message (lit "Retrying request to Sugar-AI...");
        cb_add_error_message (lit "Invalid API key. Please check your configuration.");
        cb_set_input_sensitive true].
Proof.
  assert (Hbefore : forall j, (j < 1)%nat ->
                      transient (env_post (unauthorized_on_retry j)) = true).
  { intros [|j] Hj; [reflexivity|]. exfalso. lia. }
  assert (Hi : (1 < max_retries)%nat) by (unfold max_retries; lia).
  assert (Ht : terminal_outcome (env_post (unauthorized_on_retry 1))
                 (lit "Invalid API key. Please check your configuration.")).
  { apply terminal_401. reflexivity. }
  rewrite (@terminal_outcome_at_any_attempt any_repr unauthorized_on_retry
             loop_question loop_question_quoted 1
             (lit "Invalid API key. Please check your configuration.")
             eq_refl Hi Hbefore Ht).
  split; reflexivity.
Defined.

(** A question with a lone surrogate. *)
Lemma lone_surrogate_is_not_sent :
  trace (steady loop_answer) (_make_api_request any_repr lone_surrogate)
  = [EvIdleAdd (cb_add_error_message
                  (lit "Unexpected error: 'utf-8' codec can't encode character '\ud800' in position 0: surrogates not allowed"));
     EvIdleAdd (cb_set_input_sensitive true)]
  /\ requests_of (trace (steady loop_answer) (_make_api_request any_repr lone_surrogate))
     = [].
Proof.
  exact (@unencodable_question_sends_nothing any_repr (steady loop_answer) lone_surrogate
           (mk_exn UnicodeEncodeError
              (lit "'utf-8' codec can't encode character '\ud800' in position 0: surrogates not allowed"))
           eq_refl).
Defined.

Lemma asked_is_reachable : reachable any_repr asked.
Proof.
  apply (@reachable_step any_repr
           (mk_system ready_to_ask [] []) MainThread ActAskClicked).
  - apply (@reachable_step any_repr
             (initial_system (lit "secret")) MainThread
             (ActEntryChanged (lit " What is a loop? "))).
    + apply reachable_initial.
    + apply step_entry_changed.
  - apply (step_ask_clicked any_repr ready_to_ask [] []).
Qed.

(** After the click, the widgets say that a request is in progress. *)
Lemma widgets_after_the_click :
  question_entry_sensitive (ui asked) = false
  /\ ask_button_sensitive (ui asked) = false
  /\ ask_button_label (ui asked) = lit "Thinking...".
Proof.
  exact (@widgets_follow_the_flag any_repr asked asked_is_reachable).
Defined.

Lemma asking_only_appends :
  _conversation_history (ui asked) = []
  /\ (exists added, chat_buffer (ui asked) = chat_buffer ready_to_ask ++ added)
  /\ _api_key (ui asked) = lit "secret".
Proof.
  destruct (@chatting_only_appends any_repr (mk_system ready_to_ask [] [])
              MainThread ActAskClicked asked
              (step_ask_clicked any_repr ready_to_ask [] [])) as [Htranscript Hkey].
  destruct (Htranscript eq_refl) as [Hhistory Hbuffer].
  split; [exact Hhistory | split; [exact Hbuffer | exact (Hkey eq_refl)]].
Defined.

(** The notice of Clear is not saved with the next question. *)
Lemma clear_notice_is_not_saved :
  session_conversation_history (write_file cleared_then_asked)
  = [mk_entry (lit "user") (lit "hi")].
Proof.
  exact (@write_file_skips_leading_notices cleared_then_asked
           (lit "[Conversation cleared.]")
           (newline :: lit "You: hi" ++ blank_line) eq_refl eq_refl).
Defined.

Lemma thinking_notice_in_the_saved_question :
  session_conversation_history
    (write_file
       (run_callback any_repr (cb_add_ai_message (PyStr (lit "A loop repeats code.")))
          (fst (_on_ask_clicked any_repr ready_to_ask))))
  = [mk_entry (lit "user")
       (lit "What is a loop?" ++ blank_line
        ++ lit "[Sugar-AI is thinking... This may take 2-5 minutes, please be patient.]");
     mk_entry (lit "ai") (lit "A loop repeats code.")].
Proof.
  exact (@thinking_notice_is_saved_with_the_question any_repr [] ready_to_ask
           (lit "A loop repeats code.") eq_refl eq_refl eq_refl eq_refl eq_refl).
Defined.


(** A save stopped by [open] leaves the key of the file. *)
Lemma failed_save_keeps_the_saved_key :
  _load_api_key (_save_api_key OpenFails (PyStr (lit "other")) saved_disk) (PyStr [])
  = PyStr (lit "secret").
Proof.
  destruct saved_key_is_loaded_again as (_ & _ & Hfailed & _).
  assert (Hd : disk_ok saved_disk) by (intros E; discriminate E).
  exact (Hfailed OpenFails (PyStr (lit "other")) saved_disk (PyStr [])
           (or_intror eq_refl) Hd).
Defined.

(** ** The query string on the wire *)

Lemma quote_safe_ascii c : quote_safe c = true -> (c < 128)%N.
Proof.
  unfold quote_safe. intros Hc.
  repeat (apply orb_true_iff in Hc; destruct Hc as [Hc | Hc]);
    try (apply andb_true_iff in Hc; destruct Hc as [_ Hc]; apply N.leb_le in Hc; lia);
    apply N.eqb_eq in Hc; lia.
Qed.

Lemma hex_digit_ascii d : (d < 16)%N -> (hex_digit d < 128)%N.
Proof. intros Hd. unfold hex_digit. destruct (d <? 10)%N; lia. Qed.

Lemma quote_from_bytes_ascii_only bs :
  Forall (fun b => (b < 256)%N) bs -> ascii_only (quote_from_bytes bs).
Proof.
  induction 1 as [|b bs Hb _ IH]; [constructor|].
  unfold quote_from_bytes in *. cbn [flat_map]. apply Forall_app. split; [|exact IH].
  unfold quote_byte. destruct (quote_safe b) eqn:Es.
  - constructor; [apply quote_safe_ascii; exact Es | constructor].
  - repeat constructor.
    + apply hex_digit_ascii. apply N.Div0.div_lt_upper_bound. lia.
    + apply hex_digit_ascii. apply N.mod_lt. discriminate.
Qed.

Lemma utf8_encode_ascii_only s : ascii_only s -> utf8_encode s = Some s.
Proof.
  induction 1 as [|c s Hc _ IH]; [reflexivity|]. cbn [utf8_encode].
  rewrite IH. unfold utf8_of_codepoint.
  apply N.ltb_lt in Hc. rewrite Hc. reflexivity.
Qed.

Lemma hex_digit_not_plus d : (d < 16)%N -> (hex_digit d =? plus)%N = false.
Proof.
  intros Hd. apply N.eqb_neq. unfold hex_digit, plus. destruct (d <? 10)%N; lia.
Qed.

Lemma unquote_quote_plus bs :
  Forall (fun b => (b < 256)%N) bs ->
  unquote_plus_to_bytes (flat_map quote_plus_byte bs) = bs.
Proof.
  unfold unquote_plus_to_bytes.
  induction 1 as [|b bs Hb _ IH]; [reflexivity|].
  cbn [flat_map]. rewrite map_app. unfold quote_plus_byte at 1.
  destruct (N.eqb_spec b space) as [-> | Hsp].
  { cbn [map app]. rewrite N.eqb_refl. cbn [unquote_to_bytes].
    replace (space =? percent)%N with false by reflexivity. now rewrite IH. }
  destruct (unreserved b) eqn:Eu.
  - apply andb_true_iff in Eu. destruct Eu as [Es _].
    cbn [map app].
    assert (Hp : (b =? plus)%N = false).
    { apply N.eqb_neq. intros ->. discriminate Es. }
    rewrite Hp. cbn [unquote_to_bytes].
    rewrite (quote_safe_not_percent _ Es). now rewrite IH.
  - assert (Hh : (b / 16 < 16)%N) by (apply N.Div0.div_lt_upper_bound; lia).
    assert (Hl : (b mod 16 < 16)%N) by (apply N.mod_lt; discriminate).
    cbn [map app].
    replace (percent =? plus)%N with false by reflexivity.
    rewrite (hex_digit_not_plus Hh), (hex_digit_not_plus Hl).
    cbn [unquote_to_bytes]. rewrite N.eqb_refl.
    rewrite !hex_value_hex_digit by assumption.
    rewrite IH. f_equal. pose proof (N.div_mod b 16). lia.
Qed.

(** [quote] never shortens, and lengthens whatever it escapes. *)
Lemma quote_byte_length b : (1 <= List.length (quote_byte b))%nat.
Proof. unfold quote_byte. destruct (quote_safe b); cbn; lia. Qed.

Lemma quote_from_bytes_length bs :
  (List.length bs <= List.length (quote_from_bytes bs))%nat.
Proof.
  induction bs as [|b bs IH]; [cbn; lia|].
  unfold quote_from_bytes in *. cbn [flat_map]. rewrite length_app.
  pose proof (quote_byte_length b). cbn [List.length]. lia.
Qed.

Lemma quote_codepoint_length c bs :
  utf8_of_codepoint c = Some bs ->
  (1 <= List.length (quote_from_bytes bs))%nat
  /\ (quote_safe c = false -> (2 <= List.length (quote_from_bytes bs))%nat).
Proof.
  unfold utf8_of_codepoint.
  destruct (N.ltb_spec c 128).
  { intros [= <-]. unfold quote_from_bytes. cbn [flat_map]. rewrite app_nil_r.
    unfold quote_byte. destruct (quote_safe c); cbn; split; intros; try lia; discriminate. }
  intros Hbs.
  assert (Hlen : (2 <= List.length bs)%nat).
  { destruct (c <? 2048)%N; [injection Hbs as <-; cbn; lia|].
    destruct (c <? 65536)%N.
    - destruct ((55296 <=? c) && (c <? 57344))%N; [discriminate|].
      injection Hbs as <-; cbn; lia.
    - destruct (c <? 1114112)%N; [|discriminate]. injection Hbs as <-; cbn; lia. }
  pose proof (quote_from_bytes_length bs). split; intros; lia.
Qed.

Lemma quote_length q quoted :
  quote q = inr quoted ->
  (List.length q <= List.length quoted)%nat
  /\ (forallb quote_safe q = false -> (List.length q < List.length quoted)%nat).
Proof.
  unfold quote. destruct (utf8_encode q) as [bs|] eqn:E; [|discriminate].
  intros [= <-]. revert bs E.
  induction q as [|c q IH]; intros bs; cbn [utf8_encode].
  - intros [= <-]. cbn. split; [lia | discriminate].
  - destruct (utf8_of_codepoint c) as [cs|] eqn:Ec; [|discriminate].
    destruct (utf8_encode q) as [rest|]; [|discriminate].
    intros [= <-]. destruct (IH rest eq_refl) as [Hle Hlt].
    destruct (quote_codepoint_length c Ec) as [H1 H2].
    unfold quote_from_bytes in *. rewrite flat_map_app, length_app.
    cbn [List.length forallb]. split; [lia|].
    intros Hs. apply andb_false_iff in Hs. destruct Hs as [Hs | Hs].
    + specialize (H2 Hs). lia.
    + specialize (Hlt Hs). lia.
Qed.

Lemma quote_plus_quoted q quoted :
  quote q = inr quoted ->
  quote_plus quoted = inr (flat_map quote_plus_byte quoted)
  /\ unquote_plus_to_bytes (flat_map quote_plus_byte quoted) = quoted.
Proof.
  intros Hq. destruct (quote_decodes q Hq) as (bytes & Hb & -> & _).
  pose proof (quote_from_bytes_ascii_only (utf8_encode_bytes q Hb)) as Ha.
  split.
  - unfold quote_plus. rewrite (utf8_encode_ascii_only Ha). reflexivity.
  - apply unquote_quote_plus. revert Ha. apply Forall_impl. intros c Hc. lia.
Qed.

Lemma prepared_url_request_for quoted e :
  ascii_only quoted ->
  prepared_url (request_for quoted e)
  = inr (_api_base_url ++ (if env_rag_active e then lit "/ask" else lit "/ask-llm")
         ++ lit "?question=" ++ flat_map quote_plus_byte quoted).
Proof.
  intros Ha. unfold prepared_url, request_for. cbn [params url urlencode].
  unfold quote_plus at 2. rewrite (utf8_encode_ascii_only Ha).
  replace (quote_plus (lit "question")) with (@inr exn str (lit "question"))
    by reflexivity.
  replace (lit "question" ++ lit "=" ++ flat_map quote_plus_byte quoted)
    with (113%N :: (lit "uestion=" ++ flat_map quote_plus_byte quoted))
    by reflexivity.
  rewrite <- !app_assoc. reflexivity.
Qed.

Lemma quote_identity q :
  forallb quote_safe q = true -> quote q = inr q.
Proof.
  intros Hs. unfold quote.
  assert (Ha : ascii_only q).
  { apply Forall_forall. intros c Hc. apply quote_safe_ascii.
    rewrite forallb_forall in Hs. auto. }
  rewrite (utf8_encode_ascii_only Ha). f_equal.
  clear Ha. induction q as [|c q IH]; [reflexivity|].
  cbn [forallb] in Hs. apply andb_true_iff in Hs. destruct Hs as [Hc Hs].
  unfold quote_from_bytes in *. cbn [flat_map]. rewrite (IH Hs).
  unfold quote_byte. rewrite Hc. reflexivity.
Qed.

Section Wire.
Variable repr : value -> str.

(** C7, as the code has it.  Every request goes to the base URL followed by
    [/ask] or [/ask-llm], with the key in the [X-API-Key] header and the one
    query parameter [question].  Its value on the wire is not the
    percent-encoding of the question: the worker hands [quote(question)] to
    [params], [requests] encodes that once more, and a server that decodes
    the value reads the encoded text.  It reads the question itself only
    when the question has no character for [quote] to escape. *)
Theorem question_is_encoded_twice w q quoted :
  quote q = inr quoted ->
  Forall2
    (fun rq i =>
       headers rq = [(lit "X-API-Key", env_api_key (w i))]
       /\ exists sent,
            quote_plus quoted = inr sent
            /\ prepared_url rq
               = inr (_api_base_url
                      ++ (if env_rag_active (w i) then lit "/ask" else lit "/ask-llm")
                      ++ lit "?question=" ++ sent)
            /\ unquote_plus_to_bytes sent = quoted)
    (requests_of (trace w (_make_api_request repr q)))
    (seq 0 (attempts_made w))
  /\ (quoted = q <-> forallb quote_safe q = true).
Proof.
  intros Hq. destruct (quote_plus_quoted q Hq) as [Hsent Hread]. split.
  - rewrite (@requests_of_make_api_request repr w q quoted Hq).
    apply Forall2_map_seq. intros i. split; [reflexivity|].
    exists (flat_map quote_plus_byte quoted). repeat split; auto.
    apply prepared_url_request_for.
    destruct (quote_decodes q Hq) as (bytes & Hb & -> & _).
    exact (quote_from_bytes_ascii_only (utf8_encode_bytes q Hb)).
  - split.
    + intros ->. destruct (forallb quote_safe q) eqn:Es; [reflexivity|].
      destruct (quote_length q Hq) as [_ Hlt]. specialize (Hlt Es). lia.
    + intros Hs. rewrite (quote_identity q Hs) in Hq. congruence.
Qed.

End Wire.

(** "What is a loop?" goes out as [What%2520is%2520a%2520loop%253F]. *)
Lemma loop_question_on_the_wire :
  (Forall2
     (fun rq i =>
        headers rq = [(lit "X-API-Key", env_api_key (steady loop_answer i))]
        /\ exists sent,
             quote_plus loop_question_quoted = inr sent
             /\ prepared_url rq
                = inr (_api_base_url
                       ++ (if env_rag_active (steady loop_answer i)
                           then lit "/ask" else lit "/ask-llm")
                       ++ lit "?question=" ++ sent)
             /\ unquote_plus_to_bytes sent = loop_question_quoted)
     (requests_of (trace (steady loop_answer) (_make_api_request any_repr loop_question)))
     (seq 0 (attempts_made (steady loop_answer)))
   /\ (loop_question_quoted = loop_question <-> forallb quote_safe loop_question = true))
  /\ map prepared_url
       (requests_of (trace (steady loop_answer) (_make_api_request any_repr loop_question)))
     = [inr (lit "https://ai.sugarlabs.org/ask?question=What%2520is%2520a%2520loop%253F")]
  /\ unquote_plus_to_bytes (lit "What%2520is%2520a%2520loop%253F")
     = lit "What%20is%20a%20loop%3F"
  /\ lit "What%20is%20a%20loop%3F" <> loop_question.
Proof.
  split; [|split; [|split]].
  - exact (@question_is_encoded_twice any_repr (steady loop_answer) loop_question
             loop_question_quoted eq_refl).
  - vm_compute. reflexivity.
  - vm_compute. reflexivity.
  - intros E. discriminate E.
Defined.

(** ** Which thread does what *)




Section ThreadFacts.
Variable repr : value -> str.







End ThreadFacts.

(** ** A click, step by step *)

Section ClickFacts.
Variable repr : value -> str.

Lemma accepted_click a :
  request_refused a = false ->
  negb (str_bool (strip (question_entry_text a))) = false
  /\ negb (str_bool (_api_key a)) = false
  /\ _is_requesting a = false
  /\ _on_ask_clicked repr a
     = (_set_input_sensitive false
          (_add_system_message
             (lit "Sugar-AI is thinking... This may take 2-5 minutes, please be patient.")
             (_add_user_message (strip (question_entry_text a))
                (with_question_entry_text [] a))),
        Some (_make_api_request repr (strip (question_entry_text a)))).
Proof.
  unfold request_refused. intros Hr.
  apply orb_false_iff in Hr. destruct Hr as [Hr H3].
  apply orb_false_iff in Hr. destruct Hr as [H1 H2].
  repeat split; auto. unfold _on_ask_clicked. cbv zeta. rewrite H1, H2, H3. reflexivity.
Qed.

(** The handler of an accepted click, run by the main thread alone, does
    what [_on_ask_clicked] says, and the thread is there if [start]
    succeeds. *)
Lemma accepted_click_runs a q ws (started : bool) :
  request_refused a = false ->
  execs repr (mk_machine a q Finished ws)
    (click_steps (if started then DidStart else DidStartFail))
    (mk_machine (fst (_on_ask_clicked repr a)) q Finished
       (if started
        then ws ++ map on_thread (spawned (snd (_on_ask_clicked repr a)))
        else ws)).
Proof.
  intros Hr. destruct (accepted_click a Hr) as (H1 & H2 & H3 & ->).
  cbn [fst snd spawned map]. unfold click_steps. cbn [map].
  eapply execs_cons; [apply exec_signal; reflexivity|].
  eapply execs_cons; [apply exec_main; apply perform_reads|].
  cbv beta zeta. cbn [started_by]. rewrite H1.
  eapply execs_cons; [apply exec_main; apply perform_reads|].
  cbv beta. cbn [started_by]. rewrite H2.
  eapply execs_cons; [apply exec_main; apply perform_reads|].
  cbv beta. cbn [started_by]. rewrite H3.
  do 4 (eapply execs_cons; [apply exec_main; apply perform_mutates|];
        cbn [started_by]).
  destruct started.
  - eapply execs_cons; [apply exec_main; apply perform_starts|].
    cbn [started_by]. apply execs_nil.
  - eapply execs_cons; [apply exec_main; apply perform_start_fails|].
    cbn [started_by]. apply execs_nil.
Qed.

(** ** When the thread cannot be started *)

Lemma run_callback_disabled cb a :
  touches_input cb = false -> disabled a -> disabled (run_callback repr cb a).
Proof.
  destruct cb; cbn [touches_input]; try discriminate; intros _ Ha; exact Ha.
Qed.

Lemma handler_keeps_disabled act c :
  handler repr act = Some c -> keeps_disabled c.
Proof.
  destruct act; cbn [handler]; intros [= <-].
  - constructor; [|constructor]. intros a Ha. exact Ha.
  - constructor. intros a Ha. cbv zeta.
    destruct (negb (str_bool (strip (question_entry_text a)))); [constructor|].
    constructor. intros a0 Ha0.
    destruct (negb (str_bool (_api_key a0))).
    { constructor; [|constructor]. intros a1 Ha1. exact Ha1. }
    constructor. intros a1 [Ha1 _]. rewrite Ha1. constructor.
  - constructor; [|constructor]. intros a Ha. exact Ha.
  - constructor; [|constructor]. intros a Ha. exact Ha.
  - constructor; [|constructor]. intros a Ha. exact Ha.
  - constructor; [|constructor]. intros a [Ha Hc]. split.
    + rewrite (@read_file_is_requesting repr data a). exact Ha.
    + apply (@read_file_consistent repr data a Hc).
Qed.

Lemma exec_disabled_for_good m t d m' :
  disabled_for_good m -> exec repr m t d m' ->
  disabled_for_good m'
  /\ t = MainThread /\ blocks d = false /\ d <> DidStart /\ d <> DidStartFail.
Proof.
  intros (Hui & Hq & Hmain & Hws) Hexec.
  inversion Hexec as [a q ws act c Hh | a cb q ws | a q c ws d0 a' q' c' new Hp
                      | a q c0 before c after d0 a' q' c' new Hp];
    subst; cbn [m_ui m_idle m_main m_workers] in *.
  - repeat split; try discriminate; auto; try apply Hui.
    eapply handler_keeps_disabled; eauto.
  - cbn [forallb] in Hq. apply andb_true_iff in Hq. destruct Hq as [Hcb Hq].
    apply negb_true_iff in Hcb.
    repeat split; try discriminate; auto; try apply Hui.
    constructor; [|constructor]. intros a0. apply run_callback_disabled. exact Hcb.
  - inversion Hp; subst; inversion Hmain; subst; cbn [started_by];
      repeat split; try discriminate; auto; try apply Hui;
      match goal with H : forall a, disabled a -> _ |- _ => apply (H _ Hui) end.
  - apply Forall_app in Hws. destruct Hws as [_ Hc].
    inversion Hc as [|? ? <- _]; subst. inversion Hp.
Qed.

Lemma execs_disabled_for_good m steps m' :
  disabled_for_good m -> execs repr m steps m' ->
  disabled_for_good m'
  /\ Forall (fun step => fst step = MainThread /\ blocks (snd step) = false
                         /\ snd step <> DidStart) steps.
Proof.
  intros Hm Hsteps.
  induction Hsteps as [|m t d m1 rest m2 Hexec _ IH]; [split; [exact Hm | constructor]|].
  destruct (exec_disabled_for_good Hm Hexec) as (Hm1 & Ht & Hb & Hs & _).
  destruct (IH Hm1) as [Hm2 Hrest]. split; [exact Hm2|].
  constructor; [cbn [fst snd]; auto | exact Hrest].
Qed.

(** X6. When [Thread.start()] raises in an accepted click, the handler has
    already disabled the input and nothing is left to enable it again:
    whatever happens next, [_is_requesting] stays true, the entry and the
    button stay insensitive, every click is refused, no thread is started
    and nothing is posted.  (No worker runs and no re-enabling is queued
    when the click is accepted, as after [__init__] or a finished
    request.) *)
Theorem failed_start_disables_input_for_good a q ws :
  request_refused a = false ->
  forallb (fun cb => negb (touches_input cb)) q = true ->
  Forall (eq Finished) ws ->
  execs repr (mk_machine a q Finished ws) (click_steps DidStartFail)
    (mk_machine (fst (_on_ask_clicked repr a)) q Finished ws)
  /\ forall steps m,
       execs repr (mk_machine (fst (_on_ask_clicked repr a)) q Finished ws) steps m ->
       _is_requesting (m_ui m) = true
       /\ question_entry_sensitive (m_ui m) = false
       /\ ask_button_sensitive (m_ui m) = false
       /\ request_refused (m_ui m) = true
       /\ Forall (eq Finished) (m_workers m)
       /\ Forall (fun step => fst step = MainThread /\ blocks (snd step) = false
                              /\ snd step <> DidStart) steps.
Proof.
  intros Hr Hq Hws. split; [exact (accepted_click_runs a q ws false Hr)|].
  intros steps m Hsteps.
  assert (Hstuck : disabled_for_good
                     (mk_machine (fst (_on_ask_clicked repr a)) q Finished ws)).
  { destruct (accepted_click a Hr) as (_ & _ & _ & ->). cbn [fst].
    repeat split; auto. constructor. }
  destruct (execs_disabled_for_good Hstuck Hsteps)
    as (([Hflag (Hentry & Hbutton & _)] & _ & _ & Hworkers) & Honly).
  rewrite Hflag in Hentry, Hbutton.
  unfold request_refused. rewrite Hflag, !orb_true_r. repeat split; auto.
Qed.



End ClickFacts.


(** The thread of the loop question cannot be started. *)
Lemma loop_question_thread_not_started :
  running any_repr (mk_machine ready_to_ask [] Finished [])
  /\ execs any_repr (mk_machine ready_to_ask [] Finished [])
       (click_steps DidStartFail)
       (mk_machine (fst (_on_ask_clicked any_repr ready_to_ask)) [] Finished [])
  /\ forall steps m,
       execs any_repr
         (mk_machine (fst (_on_ask_clicked any_repr ready_to_ask)) [] Finished [])
         steps m ->
       _is_requesting (m_ui m) = true
       /\ question_entry_sensitive (m_ui m) = false
       /\ ask_button_sensitive (m_ui m) = false
       /\ request_refused (m_ui m) = true
       /\ Forall (eq Finished) (m_workers m)
       /\ Forall (fun step => fst step = MainThread /\ blocks (snd step) = false
                              /\ snd step <> DidStart) steps.
Proof.
  split.
  - exists (lit "secret").
    exists [(MainThread, DidTake (ActEntryChanged (lit " What is a loop? ")));
            (MainThread, DidMutate)].
    eapply execs_cons; [apply exec_signal; reflexivity|].
    eapply execs_cons; [apply exec_main; apply perform_mutates|].
    apply execs_nil.
  - exact (@failed_start_disables_input_for_good any_repr ready_to_ask [] []
             eq_refl eq_refl (Forall_nil _)).
Defined.

(** ** A session file from elsewhere *)

Section ReadFileFacts.
Variable repr : value -> str.

Lemma restore_entries_json_displayed entries : forall buffer,
  restore_entries_json repr entries buffer
  = buffer ++ flat_map rendered (displayed repr entries).
Proof.
  induction entries as [|e rest IH]; intros buffer;
    cbn [restore_entries_json displayed flat_map].
  - now rewrite app_nil_r.
  - unfold displayed_entry.
    destruct (subscript e (lit "type")) as [ty|]; [|cbn; now rewrite app_nil_r].
    destruct (equals_str ty (lit "user")).
    { destruct (subscript e (lit "message")) as [message|]; cbn [option_map];
        [|cbn; now rewrite app_nil_r].
      rewrite IH. cbn [app flat_map].
      replace (rendered (mk_entry (lit "user") (py_str repr message)))
        with (lit "You: " ++ py_str repr message ++ blank_line) by reflexivity.
      rewrite <- !app_assoc. reflexivity. }
    destruct (equals_str ty (lit "ai")).
    { destruct (subscript e (lit "message")) as [message|]; cbn [option_map];
        [|cbn; now rewrite app_nil_r].
      rewrite IH. cbn [app flat_map].
      replace (rendered (mk_entry (lit "ai") (py_str repr message)))
        with (lit "Sugar-AI: " ++ py_str repr message ++ blank_line) by reflexivity.
      rewrite <- !app_assoc. reflexivity. }
    cbn [app]. apply IH.
Qed.

(** On the document of a session, [read_file_json] is [read_file]. *)
Lemma displayed_json_of_entries history :
  displayed repr (map json_of_entry history) = filter shown history.
Proof.
  induction history as [|e history IH]; [reflexivity|].
  cbn [map displayed filter]. unfold displayed_entry, json_of_entry at 1, shown at 1.
  cbn [subscript lookup].
  replace (str_eqb (lit "type") (lit "type")) with true by reflexivity.
  replace (str_eqb (lit "type") (lit "message")) with false by reflexivity.
  replace (str_eqb (lit "message") (lit "message")) with true by reflexivity.
  cbn [equals_str].
  destruct (str_eqb (entry_type e) (lit "user")) eqn:Eu.
  { cbn [option_map app orb py_str]. rewrite IH.
    apply str_eqb_eq in Eu. destruct e as [ty m]. cbn in *. now subst. }
  destruct (str_eqb (entry_type e) (lit "ai")) eqn:Ea.
  { cbn [option_map app orb py_str]. rewrite IH.
    apply str_eqb_eq in Ea. destruct e as [ty m]. cbn in *. now subst. }
  cbn [app orb]. exact IH.
Qed.

Lemma read_file_json_of_session data before a :
  read_file_json repr (json_of_session data) before
  = mk_restored (PyStr (_api_key (read_file repr data a)))
      (PyList (map json_of_entry (_conversation_history (read_file repr data a))))
      (chat_buffer (read_file repr data a)).
Proof.
  unfold read_file.
  match goal with |- context [fold_left _ _ ?a0] =>
    destruct (@restore_entries_fields repr (session_conversation_history data) a0)
      as (Hb & Hk & Hh) end.
  rewrite Hb, Hk, Hh. cbn [chat_buffer _api_key _conversation_history
    with_chat_buffer with_conversation_history with_api_key app].
  unfold read_file_json, json_of_session. cbn [get lookup].
  replace (str_eqb (lit "api_key") (lit "api_key")) with true by reflexivity.
  replace (str_eqb (lit "api_key") (lit "conversation_history")) with false
    by reflexivity.
  replace (str_eqb (lit "conversation_history") (lit "conversation_history"))
    with true by reflexivity.
  cbn [iterate]. rewrite restore_entries_json_displayed, displayed_json_of_entries.
  cbn [app]. rewrite <- flat_map_rendered_shown. reflexivity.
Qed.

(** X10. From a file whose [conversation_history] is a list, [read_file]
    keeps the whole list in [_conversation_history] but shows only the
    entries of type [user] or [ai], and none from the first entry on that is
    no object, has no [type], or is of type [user] or [ai] without a
    [message].  When the messages shown are storable, the next [write_file],
    which parses the chat buffer, saves the entries shown and no other:
    entries of another type and those after a malformed one are lost. *)
Theorem foreign_entries_are_not_saved data key entries before a :
  get data (lit "api_key") (PyStr []) = inr key ->
  get data (lit "conversation_history") (PyList []) = inr (PyList entries) ->
  forallb storable (displayed repr entries) = true ->
  restored_api_key (read_file_json repr data before) = key
  /\ restored_history (read_file_json repr data before) = PyList entries
  /\ restored_buffer (read_file_json repr data before)
     = flat_map rendered (displayed repr entries)
  /\ session_conversation_history
       (write_file
          (with_chat_buffer (restored_buffer (read_file_json repr data before)) a))
     = displayed repr entries.
Proof.
  intros Hkey Hhistory Hall. unfold read_file_json. rewrite Hkey, Hhistory.
  cbn [restored_api_key restored_history restored_buffer iterate].
  rewrite restore_entries_json_displayed. cbn [app].
  repeat split. unfold write_file.
  cbn [session_conversation_history chat_buffer with_chat_buffer].
  unfold parse_conversation.
  rewrite (@parse_rendered_history (displayed repr entries)
             (mk_parse_state [] [] None) Hall);
    [reflexivity | left; reflexivity].
Qed.

End ReadFileFacts.

(** A file with an entry of type [system] and an entry without message. *)
Lemma foreign_file_loses_entries :
  restored_history (read_file_json any_repr foreign_file (mk_restored (PyStr []) (PyList []) []))
  = PyList
      [PyDict [(lit "type", PyStr (lit "user")); (lit "message", PyStr (lit "hi"))];
       PyDict [(lit "type", PyStr (lit "system")); (lit "message", PyStr (lit "note"))];
       PyDict [(lit "type", PyStr (lit "ai")); (lit "message", PyStr (lit "ok"))];
       PyDict [(lit "type", PyStr (lit "ai"))];
       PyDict [(lit "type", PyStr (lit "ai")); (lit "message", PyStr (lit "lost"))]]
  /\ restored_buffer
       (read_file_json any_repr foreign_file (mk_restored (PyStr []) (PyList []) []))
     = lit "You: hi" ++ blank_line ++ lit "Sugar-AI: ok" ++ blank_line
  /\ session_conversation_history
       (write_file
          (with_chat_buffer
             (restored_buffer
                (read_file_json any_repr foreign_file
                   (mk_restored (PyStr []) (PyList []) [])))
             (initial_activity (lit "secret"))))
     = [mk_entry (lit "user") (lit "hi"); mk_entry (lit "ai") (lit "ok")].
Proof.
  destruct (@foreign_entries_are_not_saved any_repr foreign_file (PyStr (lit "secret"))
              _ (mk_restored (PyStr []) (PyList []) [])
              (initial_activity (lit "secret")) eq_refl eq_refl eq_refl)
    as (_ & Hhistory & Hbuffer & Hsaved).
  split; [exact Hhistory|]. split; [exact Hbuffer | exact Hsaved].
Defined.
